(** * gwi-api: the Store contract, its in-memory and relational
      implementations, and the request authorization layered on top.

    Shallow embedding of
      - cmd/gwi-api/api/api.go                      (Module api)
      - cmd/gwi-api/api/stores/memorystore/store.go (Module memorystore)
      - cmd/gwi-api/api/stores/postgrestore/store.go(Module postgrestore)
      - cmd/gwi-api/main.go, initEcho               (Module main)

    Go values are modelled as follows.
      - string                      : [string]
      - error                       : [option Error], [None] being nil
      - *T returned to a caller     : [option T], [None] being nil
      - []T                         : [Slice T] = [option (list T)],
                                      [None] being the nil slice
      - map[string]T                : [gmap string T]
      - map[string]struct{}         : [gset string]
      - a panic                     : the [Panic] outcome
    The in-memory store keeps the pointers it is handed. No store method
    and no handler writes through such a pointer, and [PostLogin] and
    [PostTeam] hand over a fresh local on every request, so the maps hold
    the records by value. *)

From stdpp Require Import gmap strings list fin_maps fin_sets.

(** ** Outcomes and the state monad shared by every component *)

Inductive Outcome (A : Type) : Type :=
| Return (a : A)
| Panic (msg : string).
Arguments Return {A} a.
Arguments Panic {A} msg.

Definition M (St A : Type) : Type := St -> Outcome A * St.

Definition ret {St A} (a : A) : M St A := fun w => (Return a, w).

Definition bind {St A B} (c : M St A) (k : A -> M St B) : M St B :=
  fun w =>
    match c w with
    | (Return a, w') => k a w'
    | (Panic msg, w') => (Panic msg, w')
    end.

Definition panic {St A} (msg : string) : M St A := fun w => (Panic msg, w).

(** Go's [defer f()]: [f] runs when the function body is left, also when
    the body panics. *)
Definition defer {St A} (cleanup : M St unit) (body : M St A) : M St A :=
  fun w =>
    match body w with
    | (r, w') => (r, snd (cleanup w'))
    end.

Declare Scope go_scope.
Delimit Scope go_scope with go.
Notation "'do' x <- c ; k" := (bind c (fun x => k))
  (at level 10, x name, c at level 100, k at level 200) : go_scope.
Notation "c ;; k" := (bind c (fun _ => k))
  (at level 100, k at level 200, right associativity) : go_scope.
Open Scope go_scope.

(** ** package api: the domain model *)

Module api.

(** The three sentinel errors of the package, the error produced by
    [errors.Wrap] in the relational store, and echo's HTTP errors. *)
Inductive Error : Type :=
| ErrPasswordMismatch
| ErrAlreadyExists
| ErrNotFound
| ErrWrapped (msg : string)
| HTTPError (code : nat).

#[global] Instance Error_eq_dec : EqDecision Error.
Proof. solve_decision. Defined.

Record Volunteer : Type := mkVolunteer {
  Email : string;
  Password : string
}.

#[global] Instance Volunteer_eq_dec : EqDecision Volunteer.
Proof. solve_decision. Defined.

Record Team : Type := mkTeam {
  ID : string;
  Name : string
}.

#[global] Instance Team_eq_dec : EqDecision Team.
Proof. solve_decision. Defined.

(** A Go slice: [None] is the nil slice, [Some []] an empty slice that
    is not nil. *)
Definition Slice (A : Type) : Type := option (list A).

(** [make([]T, 0, n)] *)
Definition make_slice {A} : Slice A := Some [].

(** [append(s, x)] *)
Definition append {A} (s : Slice A) (x : A) : Slice A :=
  match s with
  | None => Some [x]
  | Some l => Some (l ++ [x])
  end.

(** The elements of a slice; the nil slice has none. *)
Definition slice_elems {A} (s : Slice A) : list A := default [] s.

(** [type Store interface], over the state [St] of the backend. *)
Record Store (St : Type) : Type := mkStoreInterface {
  AuthenticateOrCreateVolunteerAccount : Volunteer -> M St (option Error);
  GetVolunteerByEmail : string -> M St (option Volunteer * option Error);
  CreateTeam : Team -> M St (option Error);
  GetTeamByID : string -> M St (option Team * option Error);
  AddTeamMember : string -> string -> M St (option Error);
  ListTeamMembers : string -> M St (Slice Volunteer * option Error);
  RemoveTeamMember : string -> string -> M St (option Error);
  CountTeamMembers : M St (gmap string nat * option Error);
  RunHealthcheck : M St (option Error)
}.
Arguments mkStoreInterface {St}.
Arguments AuthenticateOrCreateVolunteerAccount {St}.
Arguments GetVolunteerByEmail {St}.
Arguments CreateTeam {St}.
Arguments GetTeamByID {St}.
Arguments AddTeamMember {St}.
Arguments ListTeamMembers {St}.
Arguments RemoveTeamMember {St}.
Arguments CountTeamMembers {St}.
Arguments RunHealthcheck {St}.

(** [const DefaultTokenExpiration = 72 * time.Hour], in nanoseconds. *)
Definition DefaultTokenExpiration : Z := 72 * (3600 * 1000000000).

(** [type API struct] (the unused logger left out). *)
Record API (St : Type) : Type := mkAPI {
  store : Store St;
  tokenSecret : string;
  tokenExpiration : Z
}.
Arguments mkAPI {St}.
Arguments store {St}.
Arguments tokenSecret {St}.
Arguments tokenExpiration {St}.

(** [New(logger, store, tokenSecret)] without options. *)
Definition New {St} (store : Store St) (tokenSecret : string) : API St :=
  mkAPI store tokenSecret DefaultTokenExpiration.

(** What a handler finds in its [echo.Context]: the values set on the
    context by earlier middleware (the JWT middleware stores the parsed
    token under the key user) and the path parameters. *)
Inductive ClaimValue : Type :=
| ClaimString (s : string)
| ClaimNumber (n : Z)
| ClaimOther.

Inductive Claims : Type :=
| MapClaims (m : gmap string ClaimValue)
| OtherClaims.

Record Token : Type := mkToken { token_Claims : Claims }.

Inductive ContextValue : Type :=
| ValToken (t : Token)
| ValOther.

Record Context : Type := mkContext {
  values : gmap string ContextValue;
  params : gmap string string
}.

(** [c.Get(key)] *)
Definition Get (c : Context) (key : string) : option ContextValue :=
  values c !! key.

(** [c.Param(name)]: the empty string when there is no such parameter. *)
Definition Param (c : Context) (name : string) : string :=
  default EmptyString (params c !! name).

(** What a handler leaves behind: the response it wrote, if any, and the
    error it returned. *)
Inductive Body : Type :=
| NoBody
| JSONVolunteers (members : Slice Volunteer).

Record Response : Type := mkResponse { status : nat; body : Body }.

Definition HandlerResult : Type := (option Response * option Error)%type.
Definition HandlerFunc (St : Type) : Type := Context -> M St HandlerResult.

Definition StatusOK : nat := 200.
Definition StatusCreated : nat := 201.
Definition echo_ErrUnauthorized : Error := HTTPError 401.
Definition echo_ErrNotFound : Error := HTTPError 404.

Definition GetTeamMembers {St} (api : API St) : HandlerFunc St := fun c =>
  let teamID := Param c "id" in
  do r <- ListTeamMembers (store api) teamID ;
  let '(members, err) := r in
  match err with
  | Some err => ret (None, Some err)
  | None =>
      let members :=
        match members with
        | None => Some []
        | Some _ => members
        end in
      ret (Some (mkResponse StatusOK (JSONVolunteers members)), None)
  end.

Definition PutTeamMemberByEmail {St} (api : API St) : HandlerFunc St :=
  fun c =>
  let teamID := Param c "id" in
  let email := Param c "email" in
  do err <- AddTeamMember (store api) teamID email ;
  match err with
  | Some ErrNotFound => ret (None, Some echo_ErrNotFound)
  | Some ErrAlreadyExists => ret (None, None)
  | Some err => ret (None, Some err)
  | None => ret (Some (mkResponse StatusCreated NoBody), None)
  end.

Definition DeleteTeamMemberByEmail {St} (api : API St) : HandlerFunc St :=
  fun c =>
  let teamID := Param c "id" in
  let email := Param c "email" in
  do err <- RemoveTeamMember (store api) teamID email ;
  ret (None, err).

Definition GetEmailFromJWTToken (c : Context) : string * bool :=
  match Get c "user" with
  | None => (EmptyString, false)
  | Some v =>
      match v with
      | ValOther => (EmptyString, false)
      | ValToken token =>
          match token_Claims token with
          | OtherClaims => (EmptyString, false)
          | MapClaims claims =>
              match claims !! "email" with
              | Some (ClaimString email) => (email, true)
              | _ => (EmptyString, false)
              end
          end
      end
  end.

End api.
Import api.

(** ** package memorystore *)

Module memorystore.

(** [type Store struct { volunteers; teams; teamMembers; mu }] *)
Record Store : Type := mkStore {
  volunteers : gmap string Volunteer;
  teams : gmap string Team;
  teamMembers : gmap string (gset string)
}.

(** What a method does with [s.mu] and with the three maps, in program
    order. *)
Inductive MapName : Type := Mvolunteers | Mteams | MteamMembers.
Inductive Access : Type := Rd | Wr.
Inductive Event : Type :=
| EvLock
| EvUnlock
| EvRLock
| EvRUnlock
| EvMap (m : MapName) (a : Access).

(** The state a method runs in: the maps and the events so far
    (most recent last). *)
Record World : Type := mkWorld {
  mem : Store;
  trace : list Event
}.

Definition emit (e : Event) : M World unit :=
  fun w => (Return tt, mkWorld (mem w) (trace w ++ [e])).

Definition mu_Lock : M World unit := emit EvLock.
Definition mu_Unlock : M World unit := emit EvUnlock.
Definition mu_RLock : M World unit := emit EvRLock.
Definition mu_RUnlock : M World unit := emit EvRUnlock.

Definition get_store : M World Store := fun w => (Return (mem w), w).
Definition put_store (s : Store) : M World unit :=
  fun w => (Return tt, mkWorld s (trace w)).

(** [s.volunteers[k]] *)
Definition volunteers_get (k : string) : M World (option Volunteer) :=
  emit (EvMap Mvolunteers Rd) ;;
  do s <- get_store ;
  ret (volunteers s !! k).

(** [s.volunteers[k] = v] *)
Definition volunteers_set (k : string) (v : Volunteer) : M World unit :=
  emit (EvMap Mvolunteers Wr) ;;
  do s <- get_store ;
  put_store (mkStore (<[k := v]> (volunteers s)) (teams s) (teamMembers s)).

(** [s.teams[k]] *)
Definition teams_get (k : string) : M World (option Team) :=
  emit (EvMap Mteams Rd) ;;
  do s <- get_store ;
  ret (teams s !! k).

(** [s.teams[k] = t] *)
Definition teams_set (k : string) (t : Team) : M World unit :=
  emit (EvMap Mteams Wr) ;;
  do s <- get_store ;
  put_store (mkStore (volunteers s) (<[k := t]> (teams s)) (teamMembers s)).

(** [s.teamMembers[k]]: the member set stored under [k], if any. The Go
    value is a reference to that set; it is named here by its key. *)
Definition teamMembers_get (k : string) : M World (option (gset string)) :=
  emit (EvMap MteamMembers Rd) ;;
  do s <- get_store ;
  ret (teamMembers s !! k).

(** [s.teamMembers[k] = members] *)
Definition teamMembers_set (k : string) (members : gset string)
  : M World unit :=
  emit (EvMap MteamMembers Wr) ;;
  do s <- get_store ;
  put_store (mkStore (volunteers s) (teams s)
                     (<[k := members]> (teamMembers s))).

(** [_, ok := members[email]] for the set stored under [k]. *)
Definition members_has (k : string) (email : string) : M World bool :=
  emit (EvMap MteamMembers Rd) ;;
  do s <- get_store ;
  ret (bool_decide (email ∈ default ∅ (teamMembers s !! k))).

(** [members[email] = struct{}{}] for the set stored under [k]: the set
    is updated in place. *)
Definition members_insert (k : string) (email : string) : M World unit :=
  emit (EvMap MteamMembers Wr) ;;
  do s <- get_store ;
  put_store (mkStore (volunteers s) (teams s)
                     (alter (fun ms => {[email]} ∪ ms) k (teamMembers s))).

(** [delete(members, email)] for the set stored under [k]. *)
Definition members_delete (k : string) (email : string) : M World unit :=
  emit (EvMap MteamMembers Wr) ;;
  do s <- get_store ;
  put_store (mkStore (volunteers s) (teams s)
                     (alter (fun ms => ms ∖ {[email]}) k (teamMembers s))).

(** [New()] *)
Definition New : Store := mkStore ∅ ∅ ∅.

Definition AuthenticateOrCreateVolunteerAccount (volunteer : Volunteer)
  : M World (option Error) :=
  mu_Lock ;;
  defer mu_Unlock (
    do v <- volunteers_get (Email volunteer) ;
    match v with
    | None =>
        volunteers_set (Email volunteer) volunteer ;;
        ret None
    | Some v =>
        if decide (Password v <> Password volunteer)
        then ret (Some ErrPasswordMismatch)
        else ret None
    end).

Definition GetVolunteerByEmail (email : string)
  : M World (option Volunteer * option Error) :=
  mu_RLock ;;
  defer mu_RUnlock (
    do v <- volunteers_get email ;
    match v with
    | None => ret (None, Some ErrNotFound)
    | Some v =>
        let dupe := v in
        let dupe := mkVolunteer (Email dupe) EmptyString in
        ret (Some dupe, None)
    end).

Definition CreateTeam (team : Team) : M World (option Error) :=
  mu_Lock ;;
  defer mu_Unlock (
    do t <- teams_get (ID team) ;
    match t with
    | Some _ => ret (Some ErrAlreadyExists)
    | None =>
        teams_set (ID team) team ;;
        ret None
    end).

Definition GetTeamByID (teamID : string)
  : M World (option Team * option Error) :=
  mu_RLock ;;
  defer mu_RUnlock (
    do t <- teams_get teamID ;
    match t with
    | None => ret (None, Some ErrNotFound)
    | Some t => ret (Some t, None)
    end).

(** The tail of [AddTeamMember], from [members, ok := s.teamMembers[teamID]]
    on. After the [if ok] block control falls through to the assignment
    of a fresh one-element set. *)
Definition AddTeamMember_insert (teamID email : string)
  : M World (option Error) :=
  do members <- teamMembers_get teamID ;
  match members with
  | Some _ =>
      do present <- members_has teamID email ;
      if present then ret (Some ErrAlreadyExists)
      else
        members_insert teamID email ;;
        teamMembers_set teamID {[email]} ;;
        ret None
  | None =>
      teamMembers_set teamID {[email]} ;;
      ret None
  end.

Definition AddTeamMember (teamID email : string) : M World (option Error) :=
  mu_Lock ;;
  defer mu_Unlock (
    do t <- teams_get teamID ;
    match t with
    | None => ret (Some ErrNotFound)
    | Some _ =>
        do v <- volunteers_get email ;
        match v with
        | None => ret (Some ErrNotFound)
        | Some _ => AddTeamMember_insert teamID email
        end
    end).

(** The loop [for email := range emailSet] of [ListTeamMembers]: every
    turn reads the member set for the next email and then the volunteers
    map; [*s.volunteers[email]] panics on a nil pointer. *)
Fixpoint ListTeamMembers_range (emails : list string)
    (volunteers : Slice Volunteer) : M World (Slice Volunteer) :=
  match emails with
  | [] => ret volunteers
  | email :: rest =>
      emit (EvMap MteamMembers Rd) ;;
      do p <- volunteers_get email ;
      match p with
      | None =>
          panic
            "runtime error: invalid memory address or nil pointer dereference"
      | Some v =>
          let v := mkVolunteer (Email v) EmptyString in
          ListTeamMembers_range rest (append volunteers v)
      end
  end.

(** Go leaves the order of a [range] over a map unspecified; the loop is
    run over [elements emailSet], and nothing below depends on the
    order. *)
Definition ListTeamMembers (teamID : string)
  : M World (Slice Volunteer * option Error) :=
  mu_RLock ;;
  defer mu_RUnlock (
    do t <- teams_get teamID ;
    match t with
    | None => ret (None, Some ErrNotFound)
    | Some _ =>
        do members <- teamMembers_get teamID ;
        let emailSet : gset string := default ∅ members in
        do volunteers <- ListTeamMembers_range (elements emailSet)
                                               make_slice ;
        ret (volunteers, None)
    end).

Definition RemoveTeamMember (teamID email : string)
  : M World (option Error) :=
  mu_Lock ;;
  defer mu_Unlock (
    do t <- teams_get teamID ;
    match t with
    | None => ret (Some ErrNotFound)
    | Some _ =>
        do members <- teamMembers_get teamID ;
        match members with
        | None => ret (Some ErrNotFound)
        | Some _ =>
            do present <- members_has teamID email ;
            if present then
              members_delete teamID email ;;
              ret None
            else ret (Some ErrNotFound)
        end
    end).

(** The loop [for k, v := range s.teamMembers { counts[k] = len(v) }] of
    [CountTeamMembers]. *)
Fixpoint CountTeamMembers_range (entries : list (string * gset string))
    (counts : gmap string nat) : M World (gmap string nat) :=
  match entries with
  | [] => ret counts
  | (k, v) :: rest =>
      emit (EvMap MteamMembers Rd) ;;
      CountTeamMembers_range rest (<[k := size v]> counts)
  end.

(** [CountTeamMembers] takes no lock. It reads [len(s.teamMembers)] for
    the capacity of [counts] and then ranges over the map, in the order of
    [map_to_list]. *)
Definition CountTeamMembers : M World (gmap string nat * option Error) :=
  emit (EvMap MteamMembers Rd) ;;
  do s <- get_store ;
  do counts <- CountTeamMembers_range (map_to_list (teamMembers s)) ∅ ;
  ret (counts, None).

Definition RunHealthcheck : M World (option Error) := ret None.

(** Running a method on a store: its outcome and the store it leaves. *)
Definition run {A} (c : M World A) (s : Store) : Outcome A * Store :=
  let r := c (mkWorld s []) in (fst r, mem (snd r)).

(** The events of one call. *)
Definition events {A} (c : M World A) (s : Store) : list Event :=
  trace (snd (c (mkWorld s []))).

(** The lock discipline of [sync.RWMutex] for one caller: a map is read
    only under the shared or the exclusive lock, written only under the
    exclusive lock, and the lock is free at the end. *)
Inductive LockState : Type := Unlocked | ReadLocked | WriteLocked.

Fixpoint disciplined_from (l : LockState) (tr : list Event) : bool :=
  match tr with
  | [] => match l with Unlocked => true | _ => false end
  | EvLock :: tr' =>
      match l with Unlocked => disciplined_from WriteLocked tr' | _ => false end
  | EvUnlock :: tr' =>
      match l with WriteLocked => disciplined_from Unlocked tr' | _ => false end
  | EvRLock :: tr' =>
      match l with Unlocked => disciplined_from ReadLocked tr' | _ => false end
  | EvRUnlock :: tr' =>
      match l with ReadLocked => disciplined_from Unlocked tr' | _ => false end
  | EvMap _ Rd :: tr' =>
      match l with Unlocked => false | _ => disciplined_from l tr' end
  | EvMap _ Wr :: tr' =>
      match l with WriteLocked => disciplined_from l tr' | _ => false end
  end.

Definition disciplined (tr : list Event) : bool :=
  disciplined_from Unlocked tr.

(** [*memorystore.Store] as an [api.Store]. *)
Definition as_Store : api.Store World :=
  api.mkStoreInterface
    AuthenticateOrCreateVolunteerAccount GetVolunteerByEmail
    CreateTeam GetTeamByID AddTeamMember ListTeamMembers RemoveTeamMember
    CountTeamMembers RunHealthcheck.

(** One call of a method, and a history of calls. *)
Inductive Call : Type :=
| CallAuthenticateOrCreateVolunteerAccount (volunteer : Volunteer)
| CallGetVolunteerByEmail (email : string)
| CallCreateTeam (team : Team)
| CallGetTeamByID (teamID : string)
| CallAddTeamMember (teamID email : string)
| CallListTeamMembers (teamID : string)
| CallRemoveTeamMember (teamID email : string)
| CallCountTeamMembers
| CallRunHealthcheck.

(** The store a call leaves. *)
Definition after_call (s : Store) (c : Call) : Store :=
  match c with
  | CallAuthenticateOrCreateVolunteerAccount v =>
      snd (run (AuthenticateOrCreateVolunteerAccount v) s)
  | CallGetVolunteerByEmail email => snd (run (GetVolunteerByEmail email) s)
  | CallCreateTeam team => snd (run (CreateTeam team) s)
  | CallGetTeamByID teamID => snd (run (GetTeamByID teamID) s)
  | CallAddTeamMember teamID email => snd (run (AddTeamMember teamID email) s)
  | CallListTeamMembers teamID => snd (run (ListTeamMembers teamID) s)
  | CallRemoveTeamMember teamID email =>
      snd (run (RemoveTeamMember teamID email) s)
  | CallCountTeamMembers => snd (run CountTeamMembers s)
  | CallRunHealthcheck => snd (run RunHealthcheck s)
  end.

Definition after_calls (s : Store) (cs : list Call) : Store :=
  foldl after_call s cs.

(** The events of a call. *)
Definition call_events (s : Store) (c : Call) : list Event :=
  match c with
  | CallAuthenticateOrCreateVolunteerAccount v =>
      events (AuthenticateOrCreateVolunteerAccount v) s
  | CallGetVolunteerByEmail email => events (GetVolunteerByEmail email) s
  | CallCreateTeam team => events (CreateTeam team) s
  | CallGetTeamByID teamID => events (GetTeamByID teamID) s
  | CallAddTeamMember teamID email => events (AddTeamMember teamID email) s
  | CallListTeamMembers teamID => events (ListTeamMembers teamID) s
  | CallRemoveTeamMember teamID email =>
      events (RemoveTeamMember teamID email) s
  | CallCountTeamMembers => events CountTeamMembers s
  | CallRunHealthcheck => events RunHealthcheck s
  end.

(** Referential integrity of the in-memory maps: a recorded membership
    names a stored team and a stored volunteer. *)
Definition consistent (s : Store) : Prop :=
  forall teamID members email,
    teamMembers s !! teamID = Some members -> email ∈ members ->
    is_Some (teams s !! teamID) /\ is_Some (volunteers s !! email).

End memorystore.

(** ** package postgrestore

    The statements are run by PostgreSQL on the schema of
    migrations/sql/1_init.up.sql:
      volunteers(email PRIMARY KEY, password NOT NULL),
      teams(id PRIMARY KEY, name),
      team_members(volunteer_email REFERENCES volunteers(email),
                   team_id REFERENCES teams(id),
                   PRIMARY KEY (team_id, volunteer_email)).
    Each statement of store.go is given below as a function on the three
    tables; connection failures and cancelled contexts are left out. *)

Module postgrestore.

Record DB : Type := mkDB {
  volunteers : gmap string string;
  teams : gmap string string;
  team_members : gset (string * string)
}.

(** The errors the driver hands back: a [*pq.Error] with the name of
    its code, or [sql.ErrNoRows]. *)
Inductive DbError : Type :=
| PqError (codeName : string)
| ErrNoRows.

Definition queryError (err : DbError) : Error :=
  match err with
  | ErrNoRows => ErrNotFound
  | PqError _ => ErrWrapped "failed to execute database query"
  end.

Section statements.

(** pgcrypto's [crypt(password, salt)]; a stored hash carries its salt,
    so it is also what is passed as [salt] when a password is checked. *)
Variable crypt : string -> string -> string.

(** INSERT INTO volunteers (email, password)
    VALUES ($1, crypt($2, gen_salt('md5')))
    ON CONFLICT (email) DO UPDATE SET email = EXCLUDED.email
    RETURNING volunteers.password = crypt($2, volunteers.password)
    where [salt] is what [gen_salt] drew. *)
Definition sql_upsert_volunteer (salt email password : string) (db : DB)
  : (DbError + bool) * DB :=
  let stored :=
    match volunteers db !! email with
    | Some h => h
    | None => crypt password salt
    end in
  (inr (bool_decide (stored = crypt password stored)),
   mkDB (<[email := stored]> (volunteers db)) (teams db)
        (team_members db)).

Definition AuthenticateOrCreateVolunteerAccount (salt : string)
    (volunteer : Volunteer) : M DB (option Error) := fun db =>
  match sql_upsert_volunteer salt (Email volunteer) (Password volunteer) db
  with
  | (inl err, db') => (Return (Some (queryError err)), db')
  | (inr authenticated, db') =>
      if negb authenticated
      then (Return (Some ErrPasswordMismatch), db')
      else (Return None, db')
  end.

End statements.

(** SELECT * FROM volunteers WHERE email = $1, fetched with [GetContext]:
    [sql.ErrNoRows] when there is no row. *)
Definition sql_select_volunteer (email : string) (db : DB)
  : DbError + Volunteer :=
  match volunteers db !! email with
  | Some h => inr (mkVolunteer email h)
  | None => inl ErrNoRows
  end.

Definition GetVolunteerByEmail (email : string)
  : M DB (option Volunteer * option Error) := fun db =>
  match sql_select_volunteer email db with
  | inl err => (Return (None, Some (queryError err)), db)
  | inr volunteer =>
      let volunteer := mkVolunteer (Email volunteer) EmptyString in
      (Return (Some volunteer, None), db)
  end.

(** INSERT INTO teams (id, name) VALUES ($1, $2) *)
Definition sql_insert_team (id name : string) (db : DB)
  : option DbError * DB :=
  match teams db !! id with
  | Some _ => (Some (PqError "unique_violation"), db)
  | None =>
      (None, mkDB (volunteers db) (<[id := name]> (teams db))
                  (team_members db))
  end.

Definition CreateTeam (team : Team) : M DB (option Error) := fun db =>
  match sql_insert_team (ID team) (Name team) db with
  | (Some err, db') =>
      match err with
      | PqError name =>
          if String.eqb name "unique_violation"
          then (Return (Some ErrAlreadyExists), db')
          else (Return (Some (queryError err)), db')
      | _ => (Return (Some (queryError err)), db')
      end
  | (None, db') => (Return None, db')
  end.

(** SELECT * FROM teams WHERE id = $1, fetched with [GetContext]. *)
Definition sql_select_team (id : string) (db : DB) : DbError + Team :=
  match teams db !! id with
  | Some name => inr (mkTeam id name)
  | None => inl ErrNoRows
  end.

Definition GetTeamByID (teamID : string)
  : M DB (option Team * option Error) := fun db =>
  match sql_select_team teamID db with
  | inl err => (Return (None, Some (queryError err)), db)
  | inr team => (Return (Some team, None), db)
  end.

(** INSERT INTO team_members (team_id, volunteer_email) VALUES ($1, $2):
    the primary key is checked when the row goes in, the two foreign
    keys after it. *)
Definition sql_insert_team_member (teamID email : string) (db : DB)
  : option DbError * DB :=
  if bool_decide ((teamID, email) ∈ team_members db)
  then (Some (PqError "unique_violation"), db)
  else
    match teams db !! teamID, volunteers db !! email with
    | Some _, Some _ =>
        (None, mkDB (volunteers db) (teams db)
                    ({[(teamID, email)]} ∪ team_members db))
    | _, _ => (Some (PqError "foreign_key_violation"), db)
    end.

Definition AddTeamMember (teamID email : string) : M DB (option Error) :=
  fun db =>
  match sql_insert_team_member teamID email db with
  | (Some err, db') =>
      match err with
      | PqError name =>
          if String.eqb name "foreign_key_violation"
          then (Return (Some ErrNotFound), db')
          else if String.eqb name "unique_violation"
          then (Return (Some ErrAlreadyExists), db')
          else (Return (Some (queryError err)), db')
      | _ => (Return (Some (queryError err)), db')
      end
  | (None, db') => (Return None, db')
  end.

(** SELECT v.email FROM volunteers AS v
    INNER JOIN team_members AS tm ON v.email = tm.volunteer_email
    WHERE tm.team_id = $1: one row per membership of the team whose
    volunteer exists. *)
Definition sql_select_team_members (teamID : string) (db : DB)
  : list string :=
  snd <$> filter (fun row => fst row = teamID /\
                             is_Some (volunteers db !! snd row))
                 (elements (team_members db)).

(** [SelectContext] appends one value per row to the slice it is given,
    here [var volunteers []api.Volunteer], the nil slice; only the
    email column is selected. *)
Definition ListTeamMembers (teamID : string)
  : M DB (Slice Volunteer * option Error) := fun db =>
  let volunteers : Slice Volunteer :=
    foldl (fun acc email => append acc (mkVolunteer email EmptyString))
          None (sql_select_team_members teamID db) in
  (Return (volunteers, None), db).

(** DELETE FROM team_members WHERE team_id = $1 AND volunteer_email = $2,
    with the number of rows affected. *)
Definition sql_delete_team_member (teamID email : string) (db : DB)
  : nat * DB :=
  if bool_decide ((teamID, email) ∈ team_members db)
  then (1, mkDB (volunteers db) (teams db)
                (team_members db ∖ {[(teamID, email)]}))
  else (0, db).

Definition RemoveTeamMember (teamID email : string) : M DB (option Error) :=
  fun db =>
  match sql_delete_team_member teamID email db with
  | (n, db') =>
      if Nat.eqb n 0 then (Return (Some ErrNotFound), db')
      else (Return None, db')
  end.

(** SELECT team_id, COUNT( * ) FROM team_members GROUP BY team_id: one row
    per team id that occurs in the table. *)
Definition sql_count_team_members (db : DB) : list (string * nat) :=
  (fun id => (id, size (filter (fun row => fst row = id)
                               (team_members db))))
    <$> elements (set_map fst (team_members db) : gset string).

Definition CountTeamMembers : M DB (gmap string nat * option Error) :=
  fun db =>
  let counts : gmap string nat :=
    foldl (fun counts row => <[fst row := snd row]> counts)
          ∅ (sql_count_team_members db) in
  (Return (counts, None), db).

(** [db.PingContext] on a reachable database. *)
Definition RunHealthcheck : M DB (option Error) := ret None.

(** [*postgrestore.Store] as an [api.Store], for the salt drawn by
    [gen_salt]. *)
Definition as_Store (crypt : string -> string -> string) (salt : string)
  : api.Store DB :=
  api.mkStoreInterface
    (AuthenticateOrCreateVolunteerAccount crypt salt) GetVolunteerByEmail
    CreateTeam GetTeamByID AddTeamMember ListTeamMembers RemoveTeamMember
    CountTeamMembers RunHealthcheck.

End postgrestore.

(** ** package main: the routes of [initEcho] *)

Module main.

(** [limitEmailToCurrentUser] *)
Definition limitEmailToCurrentUser {St} (a : API St)
    (next : HandlerFunc St) : HandlerFunc St := fun c =>
  let '(email, ok) := GetEmailFromJWTToken c in
  let emailParam := Param c "email" in
  if negb ok || negb (String.eqb email emailParam)
  then ret (None, Some echo_ErrUnauthorized)
  else next c.

(** The routes of the group /v1/teams. The group is created with
    [jwtMiddleware], echo's [middleware.JWT] for the configured secret,
    which therefore runs first on every route of the group and hands the
    request on to the middleware of the route or answers it itself. It is
    library code and is taken as a parameter. *)

(** PUT /v1/teams/:id/members/:email *)
Definition route_PutTeamMember {St}
    (jwtMiddleware : HandlerFunc St -> HandlerFunc St) (a : API St)
  : HandlerFunc St :=
  jwtMiddleware (limitEmailToCurrentUser a (PutTeamMemberByEmail a)).

(** DELETE /v1/teams/:id/members/:email *)
Definition route_DeleteTeamMember {St}
    (jwtMiddleware : HandlerFunc St -> HandlerFunc St) (a : API St)
  : HandlerFunc St :=
  jwtMiddleware (limitEmailToCurrentUser a (DeleteTeamMemberByEmail a)).

End main.

Import memorystore.

(** ** The scenario of the integration test, with a second volunteer *)

Module scenario.

Definition me : Volunteer := mkVolunteer "me@example.com" "secret".
Definition you : Volunteer := mkVolunteer "you@example.com" "hunter2".
Definition gophers : Team := mkTeam "gophers" "The Gophers".

(** Both volunteers have logged in and the team has been created. *)
Definition signed_up : Store :=
  after_calls memorystore.New
    [CallAuthenticateOrCreateVolunteerAccount me;
     CallAuthenticateOrCreateVolunteerAccount you;
     CallCreateTeam gophers].

(** [me] has joined the team and left it again. *)
Definition joined_and_left : Store :=
  after_calls signed_up
    [CallAddTeamMember "gophers" "me@example.com";
     CallRemoveTeamMember "gophers" "me@example.com"].

(** The same in the relational store. *)
Definition db_signed_up : postgrestore.DB :=
  postgrestore.mkDB
    {[ "me@example.com" := "$1$salt$hash-of-secret";
       "you@example.com" := "$1$salt$hash-of-hunter2" ]}
    {[ "gophers" := "The Gophers" ]}
    ∅.

(** The API over the in-memory store, and requests on the membership
    routes for the email of [you]: as the request arrives, with nothing
    set on its context yet; as the JWT middleware hands it on when its
    bearer token is the token of [me]; and as it is handed on when the
    token is a valid one whose claims hold no email. *)
Definition in_memory_api : API World :=
  api.New memorystore.as_Store "top-secret".

Definition token_of_me : ContextValue :=
  ValToken (mkToken (MapClaims
                       {[ "email" := ClaimString "me@example.com" ]})).

Definition token_without_email : ContextValue :=
  ValToken (mkToken (MapClaims ∅)).

Definition arriving_for_you : Context :=
  mkContext ∅ {[ "id" := "gophers"; "email" := "you@example.com" ]}.

Definition me_for_you : Context :=
  mkContext {[ "user" := token_of_me ]}
            {[ "id" := "gophers"; "email" := "you@example.com" ]}.

Definition nameless_for_you : Context :=
  mkContext {[ "user" := token_without_email ]}
            {[ "id" := "gophers"; "email" := "you@example.com" ]}.

(** A stand-in for the JWT middleware on requests whose bearer token it
    has verified to be the token of [me]: it sets the token on the context
    under the key user and calls the next handler. *)
Definition verified_as_me {St} (next : HandlerFunc St) : HandlerFunc St :=
  fun c => next (mkContext (<["user" := token_of_me]> (values c)) (params c)).

End scenario.

(** ** package api: the remaining handlers of api.go

    [c.Bind], [jwt.Token.SignedString] and the clock belong to echo, jwt-go
    and the runtime. A handler that binds a body takes what [c.Bind] left:
    its error, or the decoded value. [GenerateJWTToken] takes the signing
    function and [unix_after d], the value of
    [time.Now().Add(d).Unix()]. *)

Module handlers.

(** What [c.JSONPretty] and [c.NoContent] write. A pointer that is nil
    is written as null. *)
Inductive Payload : Type :=
| NoPayload
| TokenPayload (token : string)
| VolunteerPayload (volunteer : option Volunteer)
| TeamPayload (team : option Team)
| CountsPayload (counts : gmap string nat).

Record Reply : Type := mkReply { code : nat; payload : Payload }.

Definition Result : Type := (option Reply * option Error)%type.
Definition Handler (St : Type) : Type := Context -> M St Result.

Definition StatusBadRequest : nat := 400.
Definition StatusConflict : nat := 409.

(** [type Option func( *API)] and [SetTokenExpiration]. *)
Definition Option (St : Type) : Type := API St -> API St.

Definition SetTokenExpiration {St} (expiration : Z) : Option St :=
  fun api => mkAPI (store api) (tokenSecret api) expiration.

(** [New(logger, store, tokenSecret, options...)] *)
Definition New {St} (store : api.Store St) (tokenSecret : string)
    (options : list (Option St)) : API St :=
  foldl (fun api opt => opt api)
        (mkAPI store tokenSecret DefaultTokenExpiration) options.

(** [jwt.New(jwt.SigningMethodHS256)]: a token with an empty claims map. *)
Definition jwt_New : Token := mkToken (MapClaims ∅).

(** The token [GenerateJWTToken] has built when it calls [SignedString];
    the type assertion on the claims panics when they are no map. *)
Definition GenerateJWTToken_token {St} (api : API St) (unix_after : Z -> Z)
    (volunteer : Volunteer) : Outcome Token :=
  let token := jwt_New in
  match token_Claims token with
  | MapClaims claims =>
      let claims := <["email" := ClaimString (Email volunteer)]> claims in
      let claims :=
        <["exp" := ClaimNumber (unix_after (tokenExpiration api))]> claims in
      Return (mkToken (MapClaims claims))
  | OtherClaims => Panic "interface conversion: jwt.Claims is not jwt.MapClaims"
  end.

Definition GenerateJWTToken {St} (api : API St)
    (sign : Token -> string -> string * option Error) (unix_after : Z -> Z)
    (volunteer : Volunteer) : Outcome (string * option Error) :=
  match GenerateJWTToken_token api unix_after volunteer with
  | Return token => Return (sign token (tokenSecret api))
  | Panic msg => Panic msg
  end.

Definition PostLogin {St} (api : API St)
    (sign : Token -> string -> string * option Error) (unix_after : Z -> Z)
    (bound : Error + Volunteer) : Handler St := fun c =>
  match bound with
  | inl err => ret (None, Some err)
  | inr volunteer =>
      if String.eqb (Email volunteer) EmptyString
      then ret (None, Some (HTTPError StatusBadRequest))
      else if String.eqb (Password volunteer) EmptyString
      then ret (None, Some (HTTPError StatusBadRequest))
      else
        do err <- api.AuthenticateOrCreateVolunteerAccount
                    (store api) volunteer ;
        match err with
        | Some ErrPasswordMismatch => ret (None, Some echo_ErrUnauthorized)
        | Some err => ret (None, Some err)
        | None =>
            match GenerateJWTToken api sign unix_after volunteer with
            | Panic msg => panic msg
            | Return (_, Some err) => ret (None, Some err)
            | Return (token, None) =>
                ret (Some (mkReply StatusOK (TokenPayload token)), None)
            end
        end
  end.

Definition GetMe {St} (api : API St) : Handler St := fun c =>
  let '(email, ok) := GetEmailFromJWTToken c in
  if negb ok then ret (None, Some echo_ErrUnauthorized)
  else
    do r <- api.GetVolunteerByEmail (store api) email ;
    let '(volunteer, err) := r in
    match err with
    | Some err => ret (None, Some err)
    | None => ret (Some (mkReply StatusOK (VolunteerPayload volunteer)), None)
    end.

Definition PostTeam {St} (api : API St) (bound : Error + Team)
  : Handler St := fun c =>
  match bound with
  | inl err => ret (None, Some err)
  | inr team =>
      if String.eqb (ID team) EmptyString
      then ret (None, Some (HTTPError StatusBadRequest))
      else
        do err <- api.CreateTeam (store api) team ;
        match err with
        | Some ErrAlreadyExists => ret (None, Some (HTTPError StatusConflict))
        | Some err => ret (None, Some err)
        | None =>
            ret (Some (mkReply StatusCreated (TeamPayload (Some team))), None)
        end
  end.

Definition GetTeamByID {St} (api : API St) : Handler St := fun c =>
  let teamID := Param c "id" in
  do r <- api.GetTeamByID (store api) teamID ;
  let '(team, err) := r in
  match err with
  | Some ErrNotFound => ret (None, Some echo_ErrNotFound)
  | Some err => ret (None, Some err)
  | None => ret (Some (mkReply StatusOK (TeamPayload team)), None)
  end.

Definition GetTeamMemberCounts {St} (api : API St) : Handler St := fun c =>
  do r <- api.CountTeamMembers (store api) ;
  let '(counts, err) := r in
  match err with
  | Some err => ret (None, Some err)
  | None => ret (Some (mkReply StatusOK (CountsPayload counts)), None)
  end.

Definition GetHealthcheck {St} (api : API St) : Handler St := fun c =>
  do err <- api.RunHealthcheck (store api) ;
  ret (None, err).

End handlers.

(** ** What holds of every store the in-memory methods can produce *)

Module invariants.

(** The record stored under an email carries that email, the team stored
    under an id carries that id. *)
Definition well_keyed (s : Store) : Prop :=
  (forall email v, memorystore.volunteers s !! email = Some v ->
     Email v = email) /\
  (forall teamID t, memorystore.teams s !! teamID = Some t -> ID t = teamID).

(** No recorded member set has more than one element. *)
Definition at_most_one_member (s : Store) : Prop :=
  forall teamID members,
    teamMembers s !! teamID = Some members -> size members <= 1.

End invariants.

(** ** Histories of calls on the relational store *)

Module postgrestore_calls.

Inductive Call : Type :=
| CallAuthenticateOrCreateVolunteerAccount (salt : string)
    (volunteer : Volunteer)
| CallGetVolunteerByEmail (email : string)
| CallCreateTeam (team : Team)
| CallGetTeamByID (teamID : string)
| CallAddTeamMember (teamID email : string)
| CallListTeamMembers (teamID : string)
| CallRemoveTeamMember (teamID email : string)
| CallCountTeamMembers
| CallRunHealthcheck.

(** The tables a call leaves, for a given [crypt]. *)
Definition after_call (crypt : string -> string -> string)
    (db : postgrestore.DB) (c : Call) : postgrestore.DB :=
  match c with
  | CallAuthenticateOrCreateVolunteerAccount salt v =>
      snd (postgrestore.AuthenticateOrCreateVolunteerAccount crypt salt v db)
  | CallGetVolunteerByEmail email =>
      snd (postgrestore.GetVolunteerByEmail email db)
  | CallCreateTeam team => snd (postgrestore.CreateTeam team db)
  | CallGetTeamByID teamID => snd (postgrestore.GetTeamByID teamID db)
  | CallAddTeamMember teamID email =>
      snd (postgrestore.AddTeamMember teamID email db)
  | CallListTeamMembers teamID => snd (postgrestore.ListTeamMembers teamID db)
  | CallRemoveTeamMember teamID email =>
      snd (postgrestore.RemoveTeamMember teamID email db)
  | CallCountTeamMembers => snd (postgrestore.CountTeamMembers db)
  | CallRunHealthcheck => snd (postgrestore.RunHealthcheck db)
  end.

Definition after_calls (crypt : string -> string -> string)
    (db : postgrestore.DB) (cs : list Call) : postgrestore.DB :=
  foldl (after_call crypt) db cs.

(** The tables right after the migration. *)
Definition migrated : postgrestore.DB := postgrestore.mkDB ∅ ∅ ∅.

(** The two foreign keys of team_members. *)
Definition consistent (db : postgrestore.DB) : Prop :=
  forall teamID email,
    (teamID, email) ∈ postgrestore.team_members db ->
    is_Some (postgrestore.teams db !! teamID) /\
    is_Some (postgrestore.volunteers db !! email).

End postgrestore_calls.

(** ** cmd/gwi-api-stats: the address of the stats endpoint *)

Module stats.

Import Stdlib.Strings.Ascii.

(** [strings.TrimRight(s, cutset)] for a cutset of ASCII characters, as
    it is called in [run]: the trailing bytes of [s] that occur in
    [cutset] are dropped. *)
Definition in_cutset (cutset : string) (a : Ascii.ascii) : bool :=
  existsb (Ascii.eqb a) (String.list_ascii_of_string cutset).

Fixpoint TrimRight (s cutset : string) : string :=
  match s with
  | EmptyString => EmptyString
  | String a rest =>
      match TrimRight rest cutset with
      | EmptyString =>
          if in_cutset cutset a then EmptyString else String a EmptyString
      | String b trimmed => String a (String b trimmed)
      end
  end.

(** [addr := strings.TrimRight(flag.Arg(0), "/")] and
    [u := addr + "/v1/stats/teams/member-count"] of [run]. *)
Definition endpoint (arg : string) : string :=
  let addr := TrimRight arg "/" in
  addr +:+ "/v1/stats/teams/member-count".

(** The string of [n] slashes. *)
Fixpoint slashes (n : nat) : string :=
  match n with
  | 0 => EmptyString
  | S n => String "/"%char (slashes n)
  end.

End stats.

(** ** Further inputs for the examples *)

Module requests.

(** A stand-in for [SignedString]: the email claim and the secret, joined
    by a dot. *)
Definition sign_plainly (token : Token) (secret : string)
  : string * option Error :=
  match token_Claims token with
  | MapClaims claims =>
      match claims !! "email" with
      | Some (ClaimString email) => (email +:+ "." +:+ secret, None)
      | _ => (secret, None)
      end
  | OtherClaims => (secret, None)
  end.

(** A clock stopped at 2019-11-01 12:00:00 UTC; durations are in
    nanoseconds. *)
Definition at_noon (d : Z) : Z := (1572609600 + d / 1000000000)%Z.

(** Requests: one carrying the token of [me], one without a token, both
    naming the team gophers. *)
Definition as_me : Context :=
  mkContext {[ "user" := scenario.token_of_me ]} {[ "id" := "gophers" ]}.

Definition anonymous : Context := mkContext ∅ {[ "id" := "gophers" ]}.

(** [me] asking to join and to leave the team gophers: the request as
    the JWT middleware hands it on, and as it arrives. *)
Definition me_for_me : Context :=
  mkContext {[ "user" := scenario.token_of_me ]}
            {[ "id" := "gophers"; "email" := "me@example.com" ]}.

Definition arriving_for_me : Context :=
  mkContext ∅ {[ "id" := "gophers"; "email" := "me@example.com" ]}.

(** A stand-in for pgcrypto's [crypt] that ignores the salt, and the
    tables after both volunteers signed up, the team was created and both
    joined it. *)
Definition plain_crypt (password salt : string) : string := password.

Definition db_two_members : postgrestore.DB :=
  postgrestore_calls.after_calls plain_crypt postgrestore_calls.migrated
    [postgrestore_calls.CallAuthenticateOrCreateVolunteerAccount
       "salt" scenario.me;
     postgrestore_calls.CallAuthenticateOrCreateVolunteerAccount
       "salt" scenario.you;
     postgrestore_calls.CallCreateTeam scenario.gophers;
     postgrestore_calls.CallAddTeamMember "gophers" "me@example.com";
     postgrestore_calls.CallAddTeamMember "gophers" "you@example.com"].

End requests.

(** ** The in-memory store, method by method *)

Section memorystore_methods.

Implicit Types (s : Store) (teamID email : string).

Ltac go_unfold :=
  unfold run, events, AuthenticateOrCreateVolunteerAccount,
    GetVolunteerByEmail, CreateTeam, GetTeamByID, AddTeamMember,
    AddTeamMember_insert, ListTeamMembers, RemoveTeamMember,
    CountTeamMembers, RunHealthcheck,
    mu_Lock, mu_Unlock, mu_RLock, mu_RUnlock,
    volunteers_get, volunteers_set, teams_get, teams_set,
    teamMembers_get, teamMembers_set, members_has, members_insert,
    members_delete, defer, bind, ret, emit, get_store, put_store;
  cbn.

Lemma insert_alter_same {A} (f : A -> A) (k : string) (x : A)
    (m : gmap string A) :
  <[k := x]> (alter f k m) = <[k := x]> m.
Proof.
  apply map_eq; intros j. destruct (decide (k = j)) as [->|Hne].
  - by rewrite !lookup_insert_eq.
  - by rewrite !lookup_insert_ne, lookup_alter_ne.
Qed.

Lemma run_AuthenticateOrCreateVolunteerAccount s volunteer :
  run (AuthenticateOrCreateVolunteerAccount volunteer) s =
    match volunteers s !! Email volunteer with
    | None =>
        (Return None,
         mkStore (<[Email volunteer := volunteer]> (volunteers s))
                 (teams s) (teamMembers s))
    | Some v =>
        if decide (Password v <> Password volunteer)
        then (Return (Some ErrPasswordMismatch), s)
        else (Return None, s)
    end.
Proof.
  destruct s as [vs ts tms]. go_unfold.
  destruct (vs !! Email volunteer) as [v|]; cbn; [|done].
  by destruct (decide (Password v <> Password volunteer)).
Qed.

Lemma run_GetVolunteerByEmail s email :
  run (GetVolunteerByEmail email) s =
    match volunteers s !! email with
    | None => (Return (None, Some ErrNotFound), s)
    | Some v => (Return (Some (mkVolunteer (Email v) EmptyString), None), s)
    end.
Proof.
  destruct s as [vs ts tms]. go_unfold. by destruct (vs !! email).
Qed.

Lemma run_CreateTeam s team :
  run (CreateTeam team) s =
    match teams s !! ID team with
    | Some _ => (Return (Some ErrAlreadyExists), s)
    | None =>
        (Return None,
         mkStore (volunteers s) (<[ID team := team]> (teams s))
                 (teamMembers s))
    end.
Proof.
  destruct s as [vs ts tms]. go_unfold. by destruct (ts !! ID team).
Qed.

Lemma run_GetTeamByID s teamID :
  run (GetTeamByID teamID) s =
    match teams s !! teamID with
    | None => (Return (None, Some ErrNotFound), s)
    | Some t => (Return (Some t, None), s)
    end.
Proof.
  destruct s as [vs ts tms]. go_unfold. by destruct (ts !! teamID).
Qed.

Lemma run_AddTeamMember s teamID email :
  run (AddTeamMember teamID email) s =
    match teams s !! teamID, volunteers s !! email with
    | None, _ | _, None => (Return (Some ErrNotFound), s)
    | Some _, Some _ =>
        match teamMembers s !! teamID with
        | Some members =>
            if bool_decide (email ∈ members)
            then (Return (Some ErrAlreadyExists), s)
            else (Return None,
                  mkStore (volunteers s) (teams s)
                          (<[teamID := {[email]}]> (teamMembers s)))
        | None =>
            (Return None,
             mkStore (volunteers s) (teams s)
                     (<[teamID := {[email]}]> (teamMembers s)))
        end
    end.
Proof.
  destruct s as [vs ts tms]. go_unfold.
  destruct (ts !! teamID); cbn; [|done].
  destruct (vs !! email); cbn; [|done].
  destruct (tms !! teamID) as [members|] eqn:Hm; cbn; [|done].
  rewrite Hm. cbn.
  destruct (bool_decide (email ∈ members)); cbn; [done|].
  by rewrite insert_alter_same.
Qed.

Lemma run_RemoveTeamMember s teamID email :
  run (RemoveTeamMember teamID email) s =
    match teams s !! teamID, teamMembers s !! teamID with
    | None, _ | _, None => (Return (Some ErrNotFound), s)
    | Some _, Some members =>
        if bool_decide (email ∈ members)
        then (Return None,
              mkStore (volunteers s) (teams s)
                      (<[teamID := members ∖ {[email]}]> (teamMembers s)))
        else (Return (Some ErrNotFound), s)
    end.
Proof.
  destruct s as [vs ts tms]. go_unfold.
  destruct (ts !! teamID); cbn; [|done].
  destruct (tms !! teamID) as [members|] eqn:Hm; cbn; [|done].
  rewrite Hm. cbn.
  destruct (bool_decide (email ∈ members)); cbn; [|done].
  do 2 f_equal. f_equal.
  apply map_eq; intros j. destruct (decide (teamID = j)) as [->|Hne].
  - by rewrite lookup_alter_eq, lookup_insert_eq, Hm.
  - by rewrite lookup_alter_ne, lookup_insert_ne.
Qed.

Lemma CountTeamMembers_range_spec (entries : list (string * gset string))
    (counts : gmap string nat) w :
  NoDup entries.*1 ->
  CountTeamMembers_range entries counts w =
    (Return (list_to_map (prod_map id size <$> entries) ∪ counts),
     mkWorld (mem w)
             (trace w ++ replicate (length entries) (EvMap MteamMembers Rd))).
Proof.
  revert counts w.
  induction entries as [|[k v] entries IH]; intros counts w Hnodup.
  - destruct w. cbn. unfold ret. by rewrite app_nil_r, (left_id_L ∅ (∪)).
  - apply NoDup_cons in Hnodup as [Hk Hnodup].
    cbn [CountTeamMembers_range]. unfold bind, emit. cbn.
    rewrite IH by done. cbn. rewrite <-app_assoc. cbn.
    do 2 f_equal. rewrite <-insert_union_r, insert_union_l; [done|].
    apply not_elem_of_list_to_map_1.
    rewrite <-list_fmap_compose.
    by rewrite (list_fmap_ext _ fst entries) by (by intros ? []).
Qed.

Lemma run_CountTeamMembers s :
  run CountTeamMembers s = (Return (size <$> teamMembers s, None), s).
Proof.
  destruct s as [vs ts tms]. go_unfold.
  rewrite CountTeamMembers_range_spec by apply NoDup_fst_map_to_list.
  cbn. rewrite (right_id_L ∅ (∪)).
  by rewrite list_to_map_fmap, list_to_map_to_list.
Qed.

Lemma events_CountTeamMembers s :
  events CountTeamMembers s =
    replicate (S (size (teamMembers s))) (EvMap MteamMembers Rd).
Proof.
  destruct s as [vs ts tms]. go_unfold.
  rewrite CountTeamMembers_range_spec by apply NoDup_fst_map_to_list.
  cbn. by rewrite length_map_to_list.
Qed.

(** The loop of [ListTeamMembers] as a function of the volunteers map:
    the members in turn, each without its password, or nothing when a
    member is not a volunteer. *)
Lemma ListTeamMembers_range_spec emails acc w :
  exists n,
    ListTeamMembers_range emails (Some acc) w =
      (match mapM (fun e => volunteers (mem w) !! e) emails with
       | Some vs =>
           Return (Some (acc ++
                    ((fun v => mkVolunteer (Email v) EmptyString) <$> vs)))
       | None =>
           Panic
             "runtime error: invalid memory address or nil pointer dereference"
       end,
       mkWorld (mem w)
               (trace w ++ mjoin (replicate n [EvMap MteamMembers Rd;
                                               EvMap Mvolunteers Rd]))).
Proof.
  revert acc w. induction emails as [|e emails IH]; intros acc w.
  - exists 0. destruct w. cbn. unfold ret. by rewrite !app_nil_r.
  - cbn [ListTeamMembers_range]. go_unfold.
    destruct (volunteers (mem w) !! e) as [v|] eqn:Hv; cbn.
    + edestruct IH as [n ->]. exists (S n). cbn.
      rewrite <-!app_assoc. cbn.
      by destruct (mapM _ emails) as [vs|]; cbn; rewrite <-?app_assoc.
    + exists 1. cbn. by rewrite <-app_assoc.
Qed.

Lemma run_ListTeamMembers s teamID :
  run (ListTeamMembers teamID) s =
    match teams s !! teamID with
    | None => (Return (None, Some ErrNotFound), s)
    | Some _ =>
        match mapM (fun e => volunteers s !! e)
                   (elements (default ∅ (teamMembers s !! teamID))) with
        | Some vs =>
            (Return (Some ((fun v => mkVolunteer (Email v) EmptyString)
                             <$> vs), None), s)
        | None =>
            (Panic
               "runtime error: invalid memory address or nil pointer dereference",
             s)
        end
    end.
Proof.
  destruct s as [vs ts tms]. go_unfold.
  destruct (ts !! teamID); cbn; [|done].
  unfold make_slice.
  match goal with
  | |- context [ListTeamMembers_range ?l (Some ?acc) ?w] =>
      destruct (ListTeamMembers_range_spec l acc w) as [n ->]
  end.
  cbn. by destruct (mapM _ _).
Qed.

Lemma run_RunHealthcheck s : run RunHealthcheck s = (Return None, s).
Proof. by destruct s. Qed.

End memorystore_methods.

(** ** Histories of calls on the in-memory store *)

Section memorystore_histories.

Implicit Types (s : Store) (c : Call) (cs : list Call).

Ltac run_cases :=
  repeat match goal with
  | |- context [match ?x with _ => _ end] =>
      lazymatch x with
      | context [match _ with _ => _ end] => fail
      | _ => destruct x eqn:?; cbn
      end
  | |- context [if ?x then _ else _] => destruct x eqn:?; cbn
  end.

Lemma after_call_volunteers s c email v :
  volunteers s !! email = Some v ->
  volunteers (after_call s c) !! email = Some v.
Proof.
  intros Hv. destruct c; cbn [after_call];
    rewrite ?run_AuthenticateOrCreateVolunteerAccount,
      ?run_GetVolunteerByEmail, ?run_CreateTeam, ?run_GetTeamByID,
      ?run_AddTeamMember, ?run_ListTeamMembers, ?run_RemoveTeamMember,
      ?run_CountTeamMembers, ?run_RunHealthcheck;
    run_cases; try done.
  rewrite lookup_insert_ne; [done|congruence].
Qed.

Lemma after_calls_volunteers s cs email v :
  volunteers s !! email = Some v ->
  volunteers (after_calls s cs) !! email = Some v.
Proof.
  revert s. induction cs as [|c cs IH]; intros s Hv; [done|].
  cbn. apply IH. by apply after_call_volunteers.
Qed.

Lemma after_call_teams s c teamID t :
  teams s !! teamID = Some t ->
  teams (after_call s c) !! teamID = Some t.
Proof.
  intros Ht. destruct c; cbn [after_call];
    rewrite ?run_AuthenticateOrCreateVolunteerAccount,
      ?run_GetVolunteerByEmail, ?run_CreateTeam, ?run_GetTeamByID,
      ?run_AddTeamMember, ?run_ListTeamMembers, ?run_RemoveTeamMember,
      ?run_CountTeamMembers, ?run_RunHealthcheck;
    run_cases; try done.
  rewrite lookup_insert_ne; [done|congruence].
Qed.

Lemma after_calls_teams s cs teamID t :
  teams s !! teamID = Some t ->
  teams (after_calls s cs) !! teamID = Some t.
Proof.
  revert s. induction cs as [|c cs IH]; intros s Ht; [done|].
  cbn. apply IH. by apply after_call_teams.
Qed.

Lemma consistent_New : consistent memorystore.New.
Proof. intros t ms e Hm. cbn in Hm. by rewrite lookup_empty in Hm. Qed.

Lemma consistent_after_call s c :
  consistent s -> consistent (after_call s c).
Proof.
  intros Hs. destruct c; cbn [after_call];
    rewrite ?run_AuthenticateOrCreateVolunteerAccount,
      ?run_GetVolunteerByEmail, ?run_CreateTeam, ?run_GetTeamByID,
      ?run_AddTeamMember, ?run_ListTeamMembers, ?run_RemoveTeamMember,
      ?run_CountTeamMembers, ?run_RunHealthcheck;
    run_cases; try done;
    intros tid ms0 em Hm He; cbn in *;
    rewrite ?lookup_insert_is_Some;
    try (destruct (decide (teamID = tid)) as [->|Hne];
         [rewrite lookup_insert_eq in Hm; simplify_eq
         |rewrite lookup_insert_ne in Hm by done]);
    try (apply elem_of_singleton in He as ->);
    try (apply elem_of_difference in He as [He _]);
    try (destruct (Hs _ _ _ Hm He) as [? ?]);
    try match goal with
        | H : teamMembers s !! _ = Some ?m, H' : _ ∈ ?m |- _ =>
            destruct (Hs _ _ _ H H') as [? ?]
        end;
    split; eauto;
    try match goal with
        | |- ?a = ?b \/ _ => destruct (decide (a = b)); eauto
        end.
Qed.

Lemma consistent_after_calls s cs :
  consistent s -> consistent (after_calls s cs).
Proof.
  revert s. induction cs as [|c cs IH]; intros s Hs; [done|].
  cbn. apply IH. by apply consistent_after_call.
Qed.

(** In a consistent store the loop of [ListTeamMembers] dereferences
    no nil pointer. *)
Lemma consistent_members_stored s teamID :
  consistent s ->
  exists vs,
    mapM (fun e => volunteers s !! e)
         (elements (default ∅ (teamMembers s !! teamID))) = Some vs.
Proof.
  intros Hs. apply mapM_is_Some, Forall_forall. intros e He.
  apply elem_of_elements in He.
  destruct (teamMembers s !! teamID) as [ms|] eqn:Hm; cbn in He.
  - by destruct (Hs teamID ms e Hm He).
  - by apply not_elem_of_empty in He.
Qed.

End memorystore_histories.

(** ** Membership in the in-memory store *)

Section memorystore_membership.

Implicit Types (s : Store) (teamID email : string).

(** C1 (the code departs from the claim). Two successful calls
    [AddTeamMember teamID v1] and [AddTeamMember teamID v2] with distinct
    volunteers leave the one-element set holding [v2] under [teamID]:
    the second call assigns a fresh set after the insertion, so
    [ListTeamMembers teamID] returns the record of [v2] alone and [v1]
    is no longer a member. *)
Theorem AddTeamMember_second_add_drops_first s teamID v1 v2 s1 s2 :
  v1 <> v2 ->
  run (AddTeamMember teamID v1) s = (Return None, s1) ->
  run (AddTeamMember teamID v2) s1 = (Return None, s2) ->
  teamMembers s1 !! teamID = Some {[v1]} /\
  teamMembers s2 !! teamID = Some {[v2]} /\
  exists r2,
    volunteers s !! v2 = Some r2 /\
    run (ListTeamMembers teamID) s2 =
      (Return (Some [mkVolunteer (Email r2) EmptyString], None), s2).
Proof.
  intros Hne H1 H2.
  assert (s1 = mkStore (volunteers s) (teams s)
                       (<[teamID := {[v1]}]> (teamMembers s))) as ->.
  { rewrite run_AddTeamMember in H1.
    destruct (teams s !! teamID); [|done].
    destruct (volunteers s !! v1); [|done].
    destruct (teamMembers s !! teamID) as [ms|]; [|congruence].
    destruct (bool_decide (v1 ∈ ms)); congruence. }
  rewrite run_AddTeamMember in H2. cbn in H2.
  destruct (teams s !! teamID) as [t|] eqn:Ht; [|done].
  destruct (volunteers s !! v2) as [r2|] eqn:Hv2; [|done].
  rewrite lookup_insert_eq in H2.
  rewrite bool_decide_eq_false_2 in H2 by set_solver.
  rewrite insert_insert_eq in H2. injection H2 as <-.
  cbn. rewrite !lookup_insert_eq. do 2 (split; [done|]).
  exists r2. split; [done|].
  rewrite run_ListTeamMembers. cbn. rewrite Ht, lookup_insert_eq. cbn.
  rewrite elements_singleton. cbn. by rewrite Hv2.
Qed.

Lemma AddTeamMember_second_add_drops_first_witness :
  exists s1 s2,
    run (AddTeamMember "gophers" "me@example.com") scenario.signed_up
      = (Return None, s1) /\
    run (AddTeamMember "gophers" "you@example.com") s1 = (Return None, s2) /\
    run (ListTeamMembers "gophers") s2 =
      (Return (Some [mkVolunteer "you@example.com" EmptyString], None), s2).
Proof.
  eexists _, _.
  assert (H1 : run (AddTeamMember "gophers" "me@example.com")
                   scenario.signed_up
               = (Return None,
                  after_call scenario.signed_up
                    (CallAddTeamMember "gophers" "me@example.com")))
    by (vm_compute; reflexivity).
  assert (H2 : run (AddTeamMember "gophers" "you@example.com")
                   (after_call scenario.signed_up
                      (CallAddTeamMember "gophers" "me@example.com"))
               = (Return None,
                  after_calls scenario.signed_up
                    [CallAddTeamMember "gophers" "me@example.com";
                     CallAddTeamMember "gophers" "you@example.com"]))
    by (vm_compute; reflexivity).
  split; [exact H1|]. split; [exact H2|].
  destruct (AddTeamMember_second_add_drops_first
              scenario.signed_up "gophers"
              "me@example.com" "you@example.com" _ _
              ltac:(discriminate) H1 H2) as (_ & _ & r2 & Hr2 & Hlist).
  vm_compute in Hr2. injection Hr2 as <-. exact Hlist.
Defined.

(** C2, the claim as stated fails: after [me] has joined the team gophers
    and left it again the team has no member, and [CountTeamMembers]
    still has the key gophers, with value 0. *)
Lemma CountTeamMembers_emptied_team_is_counted_zero :
  run (ListTeamMembers "gophers") scenario.joined_and_left
    = (Return (Some [], None), scenario.joined_and_left) /\
  exists counts,
    run CountTeamMembers scenario.joined_and_left
      = (Return (counts, None), scenario.joined_and_left) /\
    counts !! "gophers" = Some 0.
Proof.
  split; [vm_compute; reflexivity|].
  eexists. split; [apply run_CountTeamMembers|].
  vm_compute; reflexivity.
Qed.

(** C2, as amended. [CountTeamMembers] has one entry per recorded
    membership set, holding the size of the set: a team without a
    recorded set is absent, and a team from which a member was removed is
    present with the size of what is left, 0 when the member was the
    last one. *)
Theorem CountTeamMembers_counts_recorded_sets s :
  exists counts,
    run CountTeamMembers s = (Return (counts, None), s) /\
    (forall teamID,
       counts !! teamID = size <$> teamMembers s !! teamID) /\
    (forall teamID, teamMembers s !! teamID = None ->
       counts !! teamID = None) /\
    (forall teamID email s',
       run (RemoveTeamMember teamID email) s = (Return None, s') ->
       exists members counts',
         teamMembers s !! teamID = Some members /\
         email ∈ members /\
         run CountTeamMembers s' = (Return (counts', None), s') /\
         counts' !! teamID = Some (size members - 1)).
Proof.
  exists (size <$> teamMembers s).
  split; [apply run_CountTeamMembers|].
  split; [intros t; apply lookup_fmap|].
  split; [intros t Ht; by rewrite lookup_fmap, Ht|].
  intros t e s' Hrm. rewrite run_RemoveTeamMember in Hrm.
  destruct (teams s !! t); [|done].
  destruct (teamMembers s !! t) as [ms|] eqn:Hms; [|done].
  destruct (bool_decide (e ∈ ms)) eqn:He; [|done].
  apply bool_decide_eq_true in He. injection Hrm as <-.
  exists ms, (size <$> <[t := ms ∖ {[e]}]> (teamMembers s)).
  split; [done|]. split; [done|].
  split; [apply run_CountTeamMembers|].
  rewrite lookup_fmap, lookup_insert_eq. cbn. f_equal.
  rewrite size_difference by set_solver. by rewrite size_singleton.
Qed.

Lemma CountTeamMembers_counts_recorded_sets_witness :
  exists counts',
    run CountTeamMembers scenario.joined_and_left
      = (Return (counts', None), scenario.joined_and_left) /\
    counts' !! "gophers" = Some 0.
Proof.
  destruct (CountTeamMembers_counts_recorded_sets
              (after_call scenario.signed_up
                 (CallAddTeamMember "gophers" "me@example.com")))
    as (counts & _ & _ & _ & Hrm).
  destruct (Hrm "gophers" "me@example.com" scenario.joined_and_left
              ltac:(vm_compute; reflexivity))
    as (members & counts' & Hm & _ & Hrun & Hc).
  exists counts'. split; [exact Hrun|].
  vm_compute in Hm. injection Hm as <-. exact Hc.
Defined.

(** C4, the claim as stated fails: there is no state of the in-memory
    store in which the team exists, the volunteer does not, no membership
    set is recorded for the team and [AddTeamMember] succeeds. *)
Lemma AddTeamMember_unknown_volunteer_never_succeeds :
  ~ exists s teamID email,
      is_Some (teams s !! teamID) /\
      volunteers s !! email = None /\
      teamMembers s !! teamID = None /\
      fst (run (AddTeamMember teamID email) s) = Return None.
Proof.
  intros (s & t & e & [tm Ht] & Hv & _ & Hrun).
  rewrite run_AddTeamMember, Ht, Hv in Hrun. discriminate.
Qed.

(** C4, as amended. In every state of the in-memory store in which the
    volunteer is absent [AddTeamMember] fails with [ErrNotFound] and
    leaves the store as it was, whether or not the team exists and
    whether or not a membership set is recorded for it: the volunteer is
    looked up before the membership sets are. *)
Theorem AddTeamMember_unknown_volunteer_NotFound s teamID email :
  volunteers s !! email = None ->
  run (AddTeamMember teamID email) s = (Return (Some ErrNotFound), s).
Proof.
  intros Hv. rewrite run_AddTeamMember, Hv.
  by destruct (teams s !! teamID).
Qed.

Lemma AddTeamMember_unknown_volunteer_NotFound_witness :
  teamMembers scenario.signed_up !! "gophers" = None /\
  run (AddTeamMember "gophers" "nobody@example.com") scenario.signed_up
    = (Return (Some ErrNotFound), scenario.signed_up).
Proof.
  split; [vm_compute; reflexivity|].
  apply (AddTeamMember_unknown_volunteer_NotFound
           scenario.signed_up "gophers" "nobody@example.com").
  vm_compute; reflexivity.
Defined.

End memorystore_membership.

(** ** Accounts and teams in the in-memory store *)

Section memorystore_accounts_and_teams.

Implicit Types (s : Store) (cs : list Call) (email password : string).

(** C5. When no volunteer is stored under [email], the first
    [AuthenticateOrCreateVolunteerAccount] with [email] and [password]
    succeeds and stores that volunteer; after any history of further
    calls the volunteer is still stored as given, a call with the same
    password succeeds and leaves the store untouched, and a call with any
    other password fails with [ErrPasswordMismatch]. *)
Theorem AuthenticateOrCreate_creates_then_compares s email password :
  volunteers s !! email = None ->
  exists s1,
    run (AuthenticateOrCreateVolunteerAccount (mkVolunteer email password)) s
      = (Return None, s1) /\
    volunteers s1 !! email = Some (mkVolunteer email password) /\
    forall cs,
      let s2 := after_calls s1 cs in
      volunteers s2 !! email = Some (mkVolunteer email password) /\
      run (AuthenticateOrCreateVolunteerAccount
             (mkVolunteer email password)) s2 = (Return None, s2) /\
      forall password', password' <> password ->
        run (AuthenticateOrCreateVolunteerAccount
               (mkVolunteer email password')) s2
          = (Return (Some ErrPasswordMismatch), s2).
Proof.
  intros Hfresh. eexists. split.
  { rewrite run_AuthenticateOrCreateVolunteerAccount. cbn.
    by rewrite Hfresh. }
  split; [cbn; by rewrite lookup_insert_eq|].
  intros cs s2.
  assert (Hv : volunteers s2 !! email = Some (mkVolunteer email password)).
  { apply after_calls_volunteers. cbn. by rewrite lookup_insert_eq. }
  split; [done|]. split.
  - rewrite run_AuthenticateOrCreateVolunteerAccount. cbn. rewrite Hv. cbn.
    by destruct (decide (password <> password)).
  - intros password' Hne.
    rewrite run_AuthenticateOrCreateVolunteerAccount. cbn. rewrite Hv. cbn.
    destruct (decide (password <> password')) as [|Hnn]; [done|].
    exfalso. apply Hnn. congruence.
Qed.

Lemma AuthenticateOrCreate_creates_then_compares_witness :
  exists s1,
    run (AuthenticateOrCreateVolunteerAccount scenario.me) memorystore.New
      = (Return None, s1) /\
    run (AuthenticateOrCreateVolunteerAccount scenario.me)
        (after_calls s1 [CallAuthenticateOrCreateVolunteerAccount
                           scenario.you;
                         CallCreateTeam scenario.gophers])
      = (Return None,
         after_calls s1 [CallAuthenticateOrCreateVolunteerAccount
                           scenario.you;
                         CallCreateTeam scenario.gophers]) /\
    run (AuthenticateOrCreateVolunteerAccount
           (mkVolunteer "me@example.com" "guess"))
        (after_calls s1 [CallAuthenticateOrCreateVolunteerAccount
                           scenario.you;
                         CallCreateTeam scenario.gophers])
      = (Return (Some ErrPasswordMismatch),
         after_calls s1 [CallAuthenticateOrCreateVolunteerAccount
                           scenario.you;
                         CallCreateTeam scenario.gophers]).
Proof.
  destruct (AuthenticateOrCreate_creates_then_compares
              memorystore.New "me@example.com" "secret"
              ltac:(reflexivity)) as (s1 & Hrun & _ & Hlater).
  exists s1. split; [exact Hrun|].
  destruct (Hlater [CallAuthenticateOrCreateVolunteerAccount scenario.you;
                    CallCreateTeam scenario.gophers])
    as (_ & Hsame & Hother).
  split; [exact Hsame|].
  apply Hother. discriminate.
Defined.

(** C7. When [CreateTeam team] has succeeded then, after any history of
    further calls, [GetTeamByID] with the id of [team] returns [team]
    itself, id and name as supplied, and [CreateTeam] with any team of
    that id fails with [ErrAlreadyExists] and leaves the store, and so
    the stored team, as it was. *)
Theorem CreateTeam_stores_verbatim_once s team s1 :
  run (CreateTeam team) s = (Return None, s1) ->
  forall cs,
    let s2 := after_calls s1 cs in
    run (GetTeamByID (ID team)) s2 = (Return (Some team, None), s2) /\
    forall team', ID team' = ID team ->
      run (CreateTeam team') s2 = (Return (Some ErrAlreadyExists), s2) /\
      teams s2 !! ID team = Some team.
Proof.
  intros Hcreate cs s2.
  assert (Ht : teams s2 !! ID team = Some team).
  { apply after_calls_teams. rewrite run_CreateTeam in Hcreate.
    destruct (teams s !! ID team); [done|]. injection Hcreate as <-.
    cbn. by rewrite lookup_insert_eq. }
  split.
  - by rewrite run_GetTeamByID, Ht.
  - intros team' Hid. by rewrite run_CreateTeam, Hid, Ht.
Qed.

Lemma CreateTeam_stores_verbatim_once_witness :
  exists s1,
    run (CreateTeam scenario.gophers) memorystore.New = (Return None, s1) /\
    run (GetTeamByID "gophers") s1
      = (Return (Some (mkTeam "gophers" "The Gophers"), None), s1) /\
    run (CreateTeam (mkTeam "gophers" "Impostors")) s1
      = (Return (Some ErrAlreadyExists), s1).
Proof.
  eexists.
  assert (H1 : run (CreateTeam scenario.gophers) memorystore.New
               = (Return None,
                  after_call memorystore.New
                    (CallCreateTeam scenario.gophers)))
    by (vm_compute; reflexivity).
  split; [exact H1|].
  destruct (CreateTeam_stores_verbatim_once _ _ _ H1 []) as [Hget Hagain].
  split; [exact Hget|].
  exact (proj1 (Hagain (mkTeam "gophers" "Impostors") eq_refl)).
Defined.

(** C10. Whenever [AuthenticateOrCreateVolunteerAccount], [CreateTeam],
    [AddTeamMember] or [RemoveTeamMember] returns an error, the store it
    leaves, all three maps, is the store it was called on; the errors
    are the ones of the contract. *)
Theorem errors_leave_the_store_unchanged s err s' :
  (forall volunteer,
     run (AuthenticateOrCreateVolunteerAccount volunteer) s
       = (Return (Some err), s') ->
     s' = s /\ err = ErrPasswordMismatch) /\
  (forall team,
     run (CreateTeam team) s = (Return (Some err), s') ->
     s' = s /\ err = ErrAlreadyExists) /\
  (forall teamID email,
     run (AddTeamMember teamID email) s = (Return (Some err), s') ->
     s' = s /\ (err = ErrNotFound \/ err = ErrAlreadyExists)) /\
  (forall teamID email,
     run (RemoveTeamMember teamID email) s = (Return (Some err), s') ->
     s' = s /\ err = ErrNotFound).
Proof.
  repeat split.
  all: try match goal with H : _ |- _ => revert H end.
  all: rewrite ?run_AuthenticateOrCreateVolunteerAccount, ?run_CreateTeam,
         ?run_AddTeamMember, ?run_RemoveTeamMember.
  all: repeat match goal with
         | |- context [match ?x with _ => _ end] =>
             lazymatch x with
             | context [match _ with _ => _ end] => fail
             | _ => destruct x eqn:?
             end
         | |- context [if ?x then _ else _] => destruct x eqn:?
         end.
  all: try (intros [= <- <-]); try (intros [= <-]); try done; eauto.
  all: intros [=]; subst; eauto.
Qed.

Lemma errors_leave_the_store_unchanged_witness :
  run (AuthenticateOrCreateVolunteerAccount
         (mkVolunteer "me@example.com" "guess")) scenario.signed_up
    = (Return (Some ErrPasswordMismatch), scenario.signed_up) /\
  run (CreateTeam (mkTeam "gophers" "Impostors")) scenario.signed_up
    = (Return (Some ErrAlreadyExists), scenario.signed_up).
Proof.
  assert (H1 : exists s',
            run (AuthenticateOrCreateVolunteerAccount
                   (mkVolunteer "me@example.com" "guess"))
                scenario.signed_up
              = (Return (Some ErrPasswordMismatch), s'))
    by (eexists; vm_compute; reflexivity).
  assert (H2 : exists s',
            run (CreateTeam (mkTeam "gophers" "Impostors"))
                scenario.signed_up
              = (Return (Some ErrAlreadyExists), s'))
    by (eexists; vm_compute; reflexivity).
  destruct H1 as [s1 H1], H2 as [s2 H2].
  destruct (errors_leave_the_store_unchanged
              scenario.signed_up ErrPasswordMismatch s1)
    as (Hauth & _).
  destruct (errors_leave_the_store_unchanged
              scenario.signed_up ErrAlreadyExists s2)
    as (_ & Hteam & _).
  destruct (Hauth _ H1) as [E1 _]. destruct (Hteam _ H2) as [E2 _].
  split; [by rewrite <-E1 at 2|by rewrite <-E2 at 2].
Defined.

End memorystore_accounts_and_teams.

(** ** The lock of the in-memory store *)

Section memorystore_lock.

Implicit Types (s : Store) (c : Call).

Lemma disciplined_volunteer_reads n :
  disciplined_from ReadLocked
    (mjoin (replicate n [EvMap MteamMembers Rd; EvMap Mvolunteers Rd])
       ++ [EvRUnlock]) = true.
Proof. induction n as [|n IH]; [done|exact IH]. Qed.

Lemma events_ListTeamMembers s teamID :
  exists n,
    events (ListTeamMembers teamID) s =
      match teams s !! teamID with
      | None => [EvRLock; EvMap Mteams Rd; EvRUnlock]
      | Some _ =>
          [EvRLock; EvMap Mteams Rd; EvMap MteamMembers Rd]
            ++ mjoin (replicate n [EvMap MteamMembers Rd;
                                   EvMap Mvolunteers Rd])
            ++ [EvRUnlock]
      end.
Proof.
  destruct s as [vs ts tms].
  unfold events, ListTeamMembers, mu_RLock, mu_RUnlock, teams_get,
    teamMembers_get, defer, bind, ret, emit, get_store. cbn.
  destruct (ts !! teamID); cbn; [|by exists 0].
  unfold make_slice.
  match goal with
  | |- context [ListTeamMembers_range ?l (Some ?acc) ?w] =>
      destruct (ListTeamMembers_range_spec l acc w) as [n ->]
  end.
  exists n. cbn. by destruct (mapM _ _).
Qed.

(** C9 (the code departs from the claim). [CountTeamMembers] reads
    [s.teamMembers], once for its length and once per entry, and takes
    neither the shared nor the exclusive lock: its events are these reads
    alone, so the call is not disciplined. *)
Theorem CountTeamMembers_reads_without_the_lock s :
  events CountTeamMembers s =
    replicate (S (size (teamMembers s))) (EvMap MteamMembers Rd) /\
  (EvLock ∉ events CountTeamMembers s) /\
  (EvRLock ∉ events CountTeamMembers s) /\
  disciplined (events CountTeamMembers s) = false.
Proof.
  rewrite events_CountTeamMembers. split; [done|].
  split; [|split]; [| |done].
  - by intros [[=] _]%elem_of_replicate.
  - by intros [[=] _]%elem_of_replicate.
Qed.

(** Every other method holds the lock around its map accesses: the
    exclusive one where it writes, the shared one where it only reads. *)
Lemma other_methods_are_disciplined s c :
  c <> CallCountTeamMembers ->
  disciplined (call_events s c) = true.
Proof.
  intros Hc. destruct c; try done; cbn [call_events].
  6: { destruct (events_ListTeamMembers s teamID) as [n ->].
       destruct (teams s !! teamID); [|done].
       cbn. apply disciplined_volunteer_reads. }
  all: destruct s as [vs ts tms];
    unfold events, AuthenticateOrCreateVolunteerAccount,
      GetVolunteerByEmail, CreateTeam, GetTeamByID, AddTeamMember,
      AddTeamMember_insert, RemoveTeamMember, RunHealthcheck,
      mu_Lock, mu_Unlock, mu_RLock, mu_RUnlock,
      volunteers_get, volunteers_set, teams_get, teams_set,
      teamMembers_get, teamMembers_set, members_has, members_insert,
      members_delete, defer, bind, ret, emit, get_store, put_store; cbn.
  all: repeat match goal with
         | |- context [match ?x with _ => _ end] =>
             lazymatch x with
             | context [match _ with _ => _ end] => fail
             | _ => destruct x eqn:?; cbn
             end
         | |- context [if ?x then _ else _] => destruct x eqn:?; cbn
         end; done.
Qed.

End memorystore_lock.

(** ** The relational store, method by method *)

Section postgrestore_methods.

Implicit Types (db : postgrestore.DB) (teamID email : string).

Lemma slice_elems_append {A} (acc : Slice A) (x : A) :
  slice_elems (append acc x) = slice_elems acc ++ [x].
Proof. by destruct acc. Qed.

Lemma slice_elems_foldl_append {A B} (f : B -> A) (rows : list B)
    (acc : Slice A) :
  slice_elems (foldl (fun acc x => append acc (f x)) acc rows)
    = slice_elems acc ++ (f <$> rows).
Proof.
  revert acc. induction rows as [|x rows IH]; intros acc.
  - cbn. by rewrite app_nil_r.
  - cbn [foldl]. by rewrite IH, slice_elems_append, fmap_cons, <-app_assoc.
Qed.

Lemma sql_select_team_members_none teamID db :
  (forall email, (teamID, email) ∉ postgrestore.team_members db) ->
  postgrestore.sql_select_team_members teamID db = [].
Proof.
  intros Hnone. unfold postgrestore.sql_select_team_members.
  rewrite (elem_of_nil_inv (filter _ _)); [done|].
  intros [t e] Hin. apply list_elem_of_filter in Hin as [[Ht _] Hin].
  apply elem_of_elements in Hin. cbn in Ht. subst t.
  by apply (Hnone e).
Qed.

Lemma postgrestore_ListTeamMembers_rows teamID db :
  exists vs,
    postgrestore.ListTeamMembers teamID db = (Return (vs, None), db) /\
    slice_elems vs =
      (fun email => mkVolunteer email EmptyString)
        <$> postgrestore.sql_select_team_members teamID db /\
    (postgrestore.sql_select_team_members teamID db = [] -> vs = None).
Proof.
  eexists. split; [reflexivity|]. split.
  - by rewrite slice_elems_foldl_append.
  - by intros ->.
Qed.

Lemma postgrestore_ListTeamMembers_redacts teamID db :
  exists vs,
    postgrestore.ListTeamMembers teamID db = (Return (vs, None), db) /\
    forall v, v ∈ slice_elems vs -> Password v = EmptyString.
Proof.
  destruct (postgrestore_ListTeamMembers_rows teamID db)
    as (vs & Hrun & Helems & _).
  exists vs. split; [done|]. intros v Hv. rewrite Helems in Hv.
  by apply list_elem_of_fmap in Hv as (e & -> & _).
Qed.

Lemma postgrestore_GetVolunteerByEmail_spec email db :
  postgrestore.GetVolunteerByEmail email db =
    match postgrestore.volunteers db !! email with
    | None => (Return (None, Some ErrNotFound), db)
    | Some _ => (Return (Some (mkVolunteer email EmptyString), None), db)
    end.
Proof.
  unfold postgrestore.GetVolunteerByEmail,
    postgrestore.sql_select_volunteer.
  by destruct (postgrestore.volunteers db !! email).
Qed.

(** The relational counterpart of C7: a created team is read back as
    given and cannot be created again. *)
Lemma postgrestore_CreateTeam_spec team db :
  postgrestore.CreateTeam team db =
    match postgrestore.teams db !! ID team with
    | Some _ => (Return (Some ErrAlreadyExists), db)
    | None =>
        (Return None,
         postgrestore.mkDB (postgrestore.volunteers db)
           (<[ID team := Name team]> (postgrestore.teams db))
           (postgrestore.team_members db))
    end.
Proof.
  unfold postgrestore.CreateTeam, postgrestore.sql_insert_team.
  by destruct (postgrestore.teams db !! ID team).
Qed.

Lemma postgrestore_CreateTeam_then_GetTeamByID team db db' :
  postgrestore.CreateTeam team db = (Return None, db') ->
  postgrestore.GetTeamByID (ID team) db' = (Return (Some team, None), db') /\
  forall team', ID team' = ID team ->
    postgrestore.CreateTeam team' db' = (Return (Some ErrAlreadyExists), db').
Proof.
  rewrite postgrestore_CreateTeam_spec.
  destruct (postgrestore.teams db !! ID team); [done|].
  intros [= <-]. split.
  - unfold postgrestore.GetTeamByID, postgrestore.sql_select_team. cbn.
    rewrite lookup_insert_eq. by destruct team.
  - intros team' Hid. rewrite postgrestore_CreateTeam_spec. cbn.
    by rewrite Hid, lookup_insert_eq.
Qed.

(** The relational counterpart of C2: the counts come from the rows of
    team_members, so a team id is a key exactly when it has a row, and
    every count is at least 1. *)
Lemma postgrestore_count_lookup (ids : list string) (h : string -> nat)
    (m : gmap string nat) teamID :
  foldl (fun counts (row : string * nat) => <[fst row := snd row]> counts)
        m ((fun id => (id, h id)) <$> ids) !! teamID
    = if decide (teamID ∈ ids) then Some (h teamID) else m !! teamID.
Proof.
  revert m. induction ids as [|id ids IH]; intros m; cbn.
  - by rewrite decide_False by apply not_elem_of_nil.
  - rewrite IH. destruct (decide (teamID ∈ ids)) as [Hin|Hnin].
    + by rewrite decide_True by (by right).
    + destruct (decide (id = teamID)) as [->|Hne].
      * rewrite lookup_insert_eq. by rewrite decide_True by left.
      * rewrite lookup_insert_ne by done.
        rewrite decide_False; [done|].
        intros [->|?]%elem_of_cons; done.
Qed.

Lemma postgrestore_CountTeamMembers_spec db :
  exists counts,
    postgrestore.CountTeamMembers db = (Return (counts, None), db) /\
    forall teamID,
      match counts !! teamID with
      | Some n =>
          1 <= n /\
          exists email, (teamID, email) ∈ postgrestore.team_members db
      | None =>
          forall email, (teamID, email) ∉ postgrestore.team_members db
      end.
Proof.
  eexists. split; [reflexivity|]. intros t.
  unfold postgrestore.sql_count_team_members.
  rewrite (postgrestore_count_lookup _
             (fun id => size (filter (fun row => fst row = id)
                                     (postgrestore.team_members db)))).
  destruct (decide _) as [Hin|Hnin].
  - apply elem_of_elements, elem_of_map in Hin as ([t' e] & -> & Hrow).
    cbn. split; [|by exists e].
    assert (size (filter (fun row : string * string => row.1 = t')
                         (postgrestore.team_members db)) <> 0); [|lia].
    apply size_non_empty_iff. intros Hempty.
    apply (filter_empty_not_elem_of _ _ (t', e) Hempty); done.
  - rewrite lookup_empty. intros e Hrow. apply Hnin.
    apply elem_of_elements, elem_of_map. by exists (t, e).
Qed.

End postgrestore_methods.

Section postgrestore_accounts.

(** pgcrypto's [crypt], and what checking a password relies on: hashing
    a password with its own hash as salt gives that hash back. *)
Variable crypt : string -> string -> string.
Hypothesis crypt_verifies :
  forall password salt,
    crypt password (crypt password salt) = crypt password salt.

Implicit Types (db : postgrestore.DB).

(** The relational counterpart of C5, for passwords whose hashes under
    the stored salt differ. *)
Lemma postgrestore_AuthenticateOrCreate_creates_then_compares
    db salt email password :
  postgrestore.volunteers db !! email = None ->
  exists db1,
    postgrestore.AuthenticateOrCreateVolunteerAccount crypt salt
      (mkVolunteer email password) db = (Return None, db1) /\
    postgrestore.volunteers db1 !! email = Some (crypt password salt) /\
    (forall salt',
       postgrestore.AuthenticateOrCreateVolunteerAccount crypt salt'
         (mkVolunteer email password) db1 = (Return None, db1)) /\
    (forall salt' password',
       crypt password' (crypt password salt) <> crypt password salt ->
       postgrestore.AuthenticateOrCreateVolunteerAccount crypt salt'
         (mkVolunteer email password') db1
         = (Return (Some ErrPasswordMismatch), db1)).
Proof.
  intros Hfresh.
  unfold postgrestore.AuthenticateOrCreateVolunteerAccount,
    postgrestore.sql_upsert_volunteer. cbn. rewrite Hfresh.
  rewrite bool_decide_eq_true_2 by (by rewrite crypt_verifies). cbn.
  eexists. split; [reflexivity|]. cbn. rewrite lookup_insert_eq.
  split; [done|]. split.
  - intros salt'. rewrite bool_decide_eq_true_2 by (by rewrite crypt_verifies).
    cbn. by rewrite insert_insert_eq.
  - intros salt' password' Hne.
    rewrite bool_decide_eq_false_2 by congruence.
    cbn. by rewrite insert_insert_eq.
Qed.

End postgrestore_accounts.

(** ** What the read paths return *)

Section read_paths.

Implicit Types (s : Store) (db : postgrestore.DB) (teamID email : string).

Lemma ListTeamMembers_redacts s teamID vs err v :
  fst (run (ListTeamMembers teamID) s) = Return (vs, err) ->
  v ∈ slice_elems vs -> Password v = EmptyString.
Proof.
  rewrite run_ListTeamMembers.
  destruct (teams s !! teamID); cbn.
  - destruct (mapM _ _) as [l|]; cbn; [|done].
    intros [= <- <-] Hv. cbn in Hv.
    by apply list_elem_of_fmap in Hv as (r & -> & _).
  - intros [= <- <-] Hv. by apply elem_of_nil in Hv.
Qed.

Lemma ListTeamMembers_returns s teamID :
  consistent s ->
  exists vs err, run (ListTeamMembers teamID) s = (Return (vs, err), s).
Proof.
  intros Hs. rewrite run_ListTeamMembers.
  destruct (teams s !! teamID); [|by eexists _, _].
  destruct (consistent_members_stored s teamID Hs) as [l ->].
  by eexists _, _.
Qed.

Lemma ListTeamMembers_no_members s teamID :
  is_Some (teams s !! teamID) ->
  default ∅ (teamMembers s !! teamID) = ∅ ->
  run (ListTeamMembers teamID) s = (Return (Some [], None), s).
Proof.
  intros [t Ht] Hnone. rewrite run_ListTeamMembers, Ht, Hnone.
  by rewrite elements_empty.
Qed.

(** C3, the claim as stated fails for the relational store: asked for a
    team that is not in the teams table it succeeds, and for the existing
    team gophers, which has no member, it returns the nil slice. *)
Lemma postgrestore_ListTeamMembers_nil_without_rows :
  postgrestore.teams scenario.db_signed_up !! "nosuchteam" = None /\
  postgrestore.ListTeamMembers "nosuchteam" scenario.db_signed_up
    = (Return (None, None), scenario.db_signed_up) /\
  postgrestore.teams scenario.db_signed_up !! "gophers"
    = Some "The Gophers" /\
  postgrestore.ListTeamMembers "gophers" scenario.db_signed_up
    = (Return (None, None), scenario.db_signed_up) /\
  (None : Slice Volunteer) <> Some [].
Proof. repeat split; try (vm_compute; reflexivity). discriminate. Qed.

(** C3, as amended. In the in-memory store [ListTeamMembers] fails with
    [ErrNotFound] for a team id that is not stored and returns an empty
    slice that is not nil for a stored team without members. In the
    relational store it returns the nil slice for a stored team without
    members, and the handler [GetTeamMembers] answers with an empty list
    in its place. In both stores every volunteer returned has an empty
    password. *)
Theorem ListTeamMembers_unknown_and_memberless_teams :
  (forall s teamID,
     teams s !! teamID = None ->
     run (ListTeamMembers teamID) s = (Return (None, Some ErrNotFound), s)) /\
  (forall s teamID,
     is_Some (teams s !! teamID) ->
     default ∅ (teamMembers s !! teamID) = ∅ ->
     run (ListTeamMembers teamID) s = (Return (Some [], None), s)) /\
  (forall s teamID vs err v,
     fst (run (ListTeamMembers teamID) s) = Return (vs, err) ->
     v ∈ slice_elems vs -> Password v = EmptyString) /\
  (forall db teamID,
     is_Some (postgrestore.teams db !! teamID) ->
     (forall email, (teamID, email) ∉ postgrestore.team_members db) ->
     postgrestore.ListTeamMembers teamID db = (Return (None, None), db) /\
     forall crypt salt secret c,
       Param c "id" = teamID ->
       GetTeamMembers
         (api.New (postgrestore.as_Store crypt salt) secret) c db
         = (Return (Some (mkResponse StatusOK (JSONVolunteers (Some []))),
                    None), db)) /\
  (forall db teamID,
     exists vs,
       postgrestore.ListTeamMembers teamID db = (Return (vs, None), db) /\
       forall v, v ∈ slice_elems vs -> Password v = EmptyString).
Proof.
  split; [|split; [|split; [|split]]].
  - intros s t Ht. by rewrite run_ListTeamMembers, Ht.
  - apply ListTeamMembers_no_members.
  - apply ListTeamMembers_redacts.
  - intros db t _ Hnone.
    destruct (postgrestore_ListTeamMembers_rows t db)
      as (vs & Hrun & _ & Hnil).
    rewrite (Hnil (sql_select_team_members_none t db Hnone)) in Hrun.
    split; [done|]. intros crypt salt secret c Hid.
    unfold GetTeamMembers, bind, api.New, postgrestore.as_Store.
    cbn [api.store api.ListTeamMembers]. by rewrite Hid, Hrun.
  - intros db t. apply postgrestore_ListTeamMembers_redacts.
Qed.

Lemma ListTeamMembers_unknown_and_memberless_teams_witness :
  run (ListTeamMembers "nosuchteam") scenario.signed_up
    = (Return (None, Some ErrNotFound), scenario.signed_up) /\
  run (ListTeamMembers "gophers") scenario.joined_and_left
    = (Return (Some [], None), scenario.joined_and_left) /\
  postgrestore.ListTeamMembers "gophers" scenario.db_signed_up
    = (Return (None, None), scenario.db_signed_up).
Proof.
  destruct ListTeamMembers_unknown_and_memberless_teams
    as (Hunknown & Hnone & _ & Hdb & _).
  split; [|split].
  - apply Hunknown. vm_compute; reflexivity.
  - apply Hnone; [eexists|]; vm_compute; reflexivity.
  - apply Hdb; [eexists; vm_compute; reflexivity|].
    intros email Hin. vm_compute in Hin. discriminate Hin.
Defined.

(** C6. Every volunteer a read path returns has an empty password,
    whatever password is stored: [GetVolunteerByEmail] returns the stored
    record with its password emptied, and fails with [ErrNotFound] when
    no volunteer is stored under the email; every element of the slice
    [ListTeamMembers] returns has an empty password, and in a consistent
    store [ListTeamMembers] does return. The same holds of the
    relational store. *)
Theorem read_paths_return_no_password :
  (forall s email,
     run (GetVolunteerByEmail email) s =
       match volunteers s !! email with
       | None => (Return (None, Some ErrNotFound), s)
       | Some v =>
           (Return (Some (mkVolunteer (Email v) EmptyString), None), s)
       end) /\
  (forall s teamID vs err v,
     fst (run (ListTeamMembers teamID) s) = Return (vs, err) ->
     v ∈ slice_elems vs -> Password v = EmptyString) /\
  (forall s teamID,
     consistent s ->
     exists vs err, run (ListTeamMembers teamID) s = (Return (vs, err), s)) /\
  (forall db email,
     postgrestore.GetVolunteerByEmail email db =
       match postgrestore.volunteers db !! email with
       | None => (Return (None, Some ErrNotFound), db)
       | Some _ => (Return (Some (mkVolunteer email EmptyString), None), db)
       end) /\
  (forall db teamID,
     exists vs,
       postgrestore.ListTeamMembers teamID db = (Return (vs, None), db) /\
       forall v, v ∈ slice_elems vs -> Password v = EmptyString).
Proof.
  split; [|split; [|split; [|split]]].
  - apply run_GetVolunteerByEmail.
  - apply ListTeamMembers_redacts.
  - apply ListTeamMembers_returns.
  - intros db email. apply postgrestore_GetVolunteerByEmail_spec.
  - intros db t. apply postgrestore_ListTeamMembers_redacts.
Qed.

Lemma read_paths_return_no_password_witness :
  run (GetVolunteerByEmail "me@example.com") scenario.signed_up
    = (Return (Some (mkVolunteer "me@example.com" EmptyString), None),
       scenario.signed_up) /\
  run (GetVolunteerByEmail "nobody@example.com") scenario.signed_up
    = (Return (None, Some ErrNotFound), scenario.signed_up) /\
  exists vs err,
    run (ListTeamMembers "gophers")
        (after_call scenario.signed_up
           (CallAddTeamMember "gophers" "me@example.com"))
      = (Return (vs, err),
         after_call scenario.signed_up
           (CallAddTeamMember "gophers" "me@example.com")) /\
    forall v, v ∈ slice_elems vs -> Password v = EmptyString.
Proof.
  destruct read_paths_return_no_password
    as (Hget & Hredact & Hreturns & _).
  split; [|split].
  - rewrite Hget. vm_compute; reflexivity.
  - rewrite Hget. vm_compute; reflexivity.
  - destruct (Hreturns
                (after_call scenario.signed_up
                   (CallAddTeamMember "gophers" "me@example.com"))
                "gophers") as (vs & err & Hrun).
    { apply consistent_after_call.
      apply (consistent_after_calls memorystore.New).
      apply consistent_New. }
    exists vs, err. split; [exact Hrun|].
    intros v. eapply (Hredact _ "gophers" vs err v). by rewrite Hrun.
Defined.

End read_paths.

(** ** Who may change a membership *)

Section authorization.

Implicit Types (c : Context) (email : string).

(** [GetEmailFromJWTToken] answers [true] only for a token stored under
    the key user whose claims are a map with a string under email. *)
Lemma GetEmailFromJWTToken_true c email :
  GetEmailFromJWTToken c = (email, true) <->
  exists claims,
    Get c "user" = Some (ValToken (mkToken (MapClaims claims))) /\
    claims !! "email" = Some (ClaimString email).
Proof.
  unfold GetEmailFromJWTToken. split.
  - destruct (Get c "user") as [[[[claims|]]|]|]; cbn; try done.
    destruct (claims !! "email") as [[e| |]|] eqn:He; try done.
    intros Heq. injection Heq as Heq. subst e. by exists claims.
  - intros (claims & -> & Hc). cbn. by rewrite Hc.
Qed.

Lemma GetEmailFromJWTToken_no_token c :
  Get c "user" = None -> GetEmailFromJWTToken c = (EmptyString, false).
Proof. unfold GetEmailFromJWTToken. by intros ->. Qed.

(** A call of [AddTeamMember] or [RemoveTeamMember] of the in-memory
    store shows in the trace: it starts by taking the lock. *)
Lemma memorystore_mutation_is_traced teamID email w :
  (exists tr,
     trace (snd (memorystore.AddTeamMember teamID email w))
       = trace w ++ EvLock :: tr) /\
  (exists tr,
     trace (snd (memorystore.RemoveTeamMember teamID email w))
       = trace w ++ EvLock :: tr).
Proof.
  destruct w as [[vs ts tms] tr0].
  unfold memorystore.AddTeamMember, AddTeamMember_insert,
    memorystore.RemoveTeamMember,
    mu_Lock, mu_Unlock, volunteers_get, teams_get,
    teamMembers_get, teamMembers_set, members_has, members_insert,
    members_delete, defer, bind, ret, emit, get_store, put_store; cbn.
  split.
  all: repeat match goal with
         | |- context [match ?x with _ => _ end] =>
             lazymatch x with
             | context [match _ with _ => _ end] => fail
             | _ => destruct x eqn:?; cbn
             end
         | |- context [if ?x then _ else _] => destruct x eqn:?; cbn
         end.
  all: rewrite <-?app_assoc; cbn; eauto.
Qed.

(** With the email of the token equal to the one of the path the request
    goes on to the handler. *)
Lemma limitEmailToCurrentUser_passes {St} (a : API St)
    (next : HandlerFunc St) c email :
  GetEmailFromJWTToken c = (email, true) ->
  Param c "email" = email ->
  main.limitEmailToCurrentUser a next c = next c.
Proof.
  intros Hok Hparam. unfold main.limitEmailToCurrentUser.
  rewrite Hok, Hparam. cbn. by rewrite String.eqb_refl.
Qed.

(** C8. When [GetEmailFromJWTToken] finds no usable token on the context,
    or finds an email that differs from the email parameter of the path,
    [limitEmailToCurrentUser] answers [echo.ErrUnauthorized] without
    calling the next handler, whatever that handler is and whatever the
    store: the state of the store is the one before the request. So both
    membership routes answer a request that the JWT middleware of the
    group hands on with such a context; with [PutTeamMemberByEmail] or
    [DeleteTeamMemberByEmail] as the next handler on the in-memory store,
    not even the lock has been taken. *)
Theorem limitEmailToCurrentUser_rejects_before_the_store
    {St} (a : API St) (next : HandlerFunc St) c (w : St) :
  snd (GetEmailFromJWTToken c) = false \/
    fst (GetEmailFromJWTToken c) <> Param c "email" ->
  main.limitEmailToCurrentUser a next c w
    = (Return (None, Some echo_ErrUnauthorized), w) /\
  (forall (jwtMiddleware : HandlerFunc St -> HandlerFunc St) arriving,
     (forall handler, jwtMiddleware handler arriving = handler c) ->
     main.route_PutTeamMember jwtMiddleware a arriving w
       = (Return (None, Some echo_ErrUnauthorized), w) /\
     main.route_DeleteTeamMember jwtMiddleware a arriving w
       = (Return (None, Some echo_ErrUnauthorized), w)) /\
  forall secret s tr,
    snd (main.limitEmailToCurrentUser (api.New memorystore.as_Store secret)
           (PutTeamMemberByEmail (api.New memorystore.as_Store secret)) c
           (mkWorld s tr)) = mkWorld s tr /\
    snd (main.limitEmailToCurrentUser (api.New memorystore.as_Store secret)
           (DeleteTeamMemberByEmail (api.New memorystore.as_Store secret)) c
           (mkWorld s tr)) = mkWorld s tr.
Proof.
  intros Hbad.
  assert (Hany : forall St' (a' : API St') (next' : HandlerFunc St') w',
            main.limitEmailToCurrentUser a' next' c w'
              = (Return (None, Some echo_ErrUnauthorized), w')).
  { intros St' a' next' w'. unfold main.limitEmailToCurrentUser.
    destruct (GetEmailFromJWTToken c) as [email ok]. cbn in Hbad.
    destruct Hbad as [->|Hne]; [done|].
    destruct ok; [|done]. cbn.
    destruct (String.eqb_spec email (Param c "email")); done. }
  split; [apply Hany|]. split.
  - intros jwtMiddleware arriving Hhands.
    unfold main.route_PutTeamMember, main.route_DeleteTeamMember.
    by rewrite !Hhands, !Hany.
  - intros secret s tr. by rewrite !Hany.
Qed.

Lemma limitEmailToCurrentUser_rejects_before_the_store_witness :
  main.limitEmailToCurrentUser scenario.in_memory_api
      (PutTeamMemberByEmail scenario.in_memory_api) scenario.me_for_you
      (mkWorld scenario.signed_up [])
    = (Return (None, Some echo_ErrUnauthorized),
       mkWorld scenario.signed_up []) /\
  main.route_DeleteTeamMember scenario.verified_as_me scenario.in_memory_api
      scenario.arriving_for_you (mkWorld scenario.signed_up [])
    = (Return (None, Some echo_ErrUnauthorized),
       mkWorld scenario.signed_up []) /\
  main.limitEmailToCurrentUser scenario.in_memory_api
      (PutTeamMemberByEmail scenario.in_memory_api)
      scenario.nameless_for_you (mkWorld scenario.signed_up [])
    = (Return (None, Some echo_ErrUnauthorized),
       mkWorld scenario.signed_up []).
Proof.
  assert (Hmismatch :
            snd (GetEmailFromJWTToken scenario.me_for_you) = false \/
            fst (GetEmailFromJWTToken scenario.me_for_you)
              <> Param scenario.me_for_you "email")
    by (right; vm_compute; discriminate).
  destruct (limitEmailToCurrentUser_rejects_before_the_store
              scenario.in_memory_api
              (PutTeamMemberByEmail scenario.in_memory_api)
              scenario.me_for_you (mkWorld scenario.signed_up [])
              Hmismatch) as (Hcheck & Hroutes & _).
  split; [exact Hcheck|]. split.
  - apply (Hroutes scenario.verified_as_me scenario.arriving_for_you).
    intros handler. reflexivity.
  - apply (limitEmailToCurrentUser_rejects_before_the_store
             scenario.in_memory_api
             (PutTeamMemberByEmail scenario.in_memory_api)
             scenario.nameless_for_you).
    left. vm_compute. reflexivity.
Defined.

End authorization.

(** ** More on the in-memory store: invariants of its histories *)

Section memorystore_invariants.

Implicit Types (s : Store) (c : Call) (cs : list Call).

Ltac run_methods :=
  rewrite ?run_AuthenticateOrCreateVolunteerAccount,
    ?run_GetVolunteerByEmail, ?run_CreateTeam, ?run_GetTeamByID,
    ?run_AddTeamMember, ?run_ListTeamMembers, ?run_RemoveTeamMember,
    ?run_CountTeamMembers, ?run_RunHealthcheck.

Ltac split_cases :=
  repeat match goal with
  | |- context [match ?x with _ => _ end] =>
      lazymatch x with
      | context [match _ with _ => _ end] => fail
      | _ => destruct x eqn:?; cbn
      end
  | |- context [if ?x then _ else _] => destruct x eqn:?; cbn
  end.

Lemma after_calls_preserve (P : Store -> Prop) :
  (forall s c, P s -> P (after_call s c)) ->
  forall cs s, P s -> P (after_calls s cs).
Proof.
  intros Hstep cs. induction cs as [|c cs IH]; intros s Hs; [done|].
  cbn. apply IH, Hstep, Hs.
Qed.

Lemma after_calls_app s cs cs' :
  after_calls s (cs ++ cs') = after_calls (after_calls s cs) cs'.
Proof. apply foldl_app. Qed.

Lemma well_keyed_after_call s c :
  invariants.well_keyed s -> invariants.well_keyed (after_call s c).
Proof.
  intros [Hv Ht]. destruct c; cbn [after_call]; run_methods;
    split_cases; try done; split; cbn; try done.
  - intros e0 v0. destruct (decide (Email volunteer = e0)) as [<-|Hne].
    + rewrite lookup_insert_eq. by intros [= <-].
    + rewrite lookup_insert_ne by done. apply Hv.
  - intros id0 t0. destruct (decide (ID team = id0)) as [<-|Hne].
    + rewrite lookup_insert_eq. by intros [= <-].
    + rewrite lookup_insert_ne by done. apply Ht.
Qed.

Lemma at_most_one_member_after_call s c :
  invariants.at_most_one_member s ->
  invariants.at_most_one_member (after_call s c).
Proof.
  intros Hs. destruct c; cbn [after_call]; run_methods;
    split_cases; try done; intros tid ms0; cbn;
    (destruct (decide (teamID = tid)) as [<-|Hne];
     [rewrite lookup_insert_eq; intros [= <-]
     |rewrite lookup_insert_ne by done; apply Hs]).
  - by rewrite size_singleton.
  - by rewrite size_singleton.
  - etransitivity; [apply subseteq_size, subseteq_difference_l; done|].
    eapply Hs. eassumption.
Qed.

(** X1. Every store the methods produce from [New()] keeps referential
    integrity and is well keyed: a recorded member is a stored volunteer
    of a stored team, and every record sits under its own email or id. *)
Theorem reachable_stores_keep_integrity cs :
  consistent (after_calls memorystore.New cs) /\
  invariants.well_keyed (after_calls memorystore.New cs).
Proof.
  split.
  - apply consistent_after_calls, consistent_New.
  - apply (after_calls_preserve _ well_keyed_after_call).
    split; intros k x Hk; cbn in Hk; by rewrite lookup_empty in Hk.
Qed.

(** X2. In every store the methods produce from [New()] no team has more
    than one member, and [CountTeamMembers] reports no count above 1:
    each successful [AddTeamMember] leaves a one-element set. *)
Theorem reachable_teams_have_at_most_one_member cs :
  invariants.at_most_one_member (after_calls memorystore.New cs) /\
  exists counts,
    run CountTeamMembers (after_calls memorystore.New cs)
      = (Return (counts, None), after_calls memorystore.New cs) /\
    forall teamID n, counts !! teamID = Some n -> n <= 1.
Proof.
  assert (H : invariants.at_most_one_member
                (after_calls memorystore.New cs)).
  { apply (after_calls_preserve _ at_most_one_member_after_call).
    intros t ms Hms. cbn in Hms. by rewrite lookup_empty in Hms. }
  split; [done|]. eexists. split; [apply run_CountTeamMembers|].
  intros t n. rewrite lookup_fmap.
  destruct (teamMembers _ !! t) as [ms|] eqn:Hms; [|done].
  intros [= <-]. by eapply H.
Qed.



(** X4. The read-only methods leave all three maps as they were, also
    when [ListTeamMembers] panics. *)
Theorem read_only_methods_leave_the_store s :
  (forall email, snd (run (GetVolunteerByEmail email) s) = s) /\
  (forall teamID, snd (run (GetTeamByID teamID) s) = s) /\
  (forall teamID, snd (run (ListTeamMembers teamID) s) = s) /\
  snd (run CountTeamMembers s) = s /\
  snd (run RunHealthcheck s) = s.
Proof.
  repeat split; intros; run_methods; split_cases; done.
Qed.

End memorystore_invariants.

(** ** More on the in-memory store: joining and leaving a team *)

Section memorystore_joining_and_leaving.

Implicit Types (s : Store) (cs : list Call) (teamID email : string).

Lemma mapM_well_keyed s (emails : list string) (vs : list Volunteer) :
  invariants.well_keyed s ->
  mapM (fun e => volunteers s !! e) emails = Some vs ->
  (fun v => mkVolunteer (Email v) EmptyString) <$> vs
    = (fun e => mkVolunteer e EmptyString) <$> emails.
Proof.
  intros [Hkey _] Hm. apply mapM_Some in Hm.
  induction Hm as [|e v emails vs He _ IH]; [done|].
  cbn. by rewrite IH, (Hkey e v He).
Qed.

(** X5. In every store the methods produce from [New()], [ListTeamMembers]
    on a stored team returns each member of the team exactly once, as a
    record holding the member's email and an empty password, and nothing
    else. *)
Theorem ListTeamMembers_lists_each_member_once cs teamID t :
  teams (after_calls memorystore.New cs) !! teamID = Some t ->
  exists l,
    run (ListTeamMembers teamID) (after_calls memorystore.New cs)
      = (Return (Some l, None), after_calls memorystore.New cs) /\
    NoDup l /\
    forall v,
      v ∈ l <->
      Password v = EmptyString /\
      Email v ∈ default ∅
        (teamMembers (after_calls memorystore.New cs) !! teamID).
Proof.
  set (s := after_calls memorystore.New cs). intros Ht.
  assert (Hc : consistent s)
    by apply consistent_after_calls, consistent_New.
  assert (Hk : invariants.well_keyed s).
  { apply (after_calls_preserve _ well_keyed_after_call).
    split; intros k x Hx; cbn in Hx; by rewrite lookup_empty in Hx. }
  destruct (consistent_members_stored s teamID Hc) as [vs Hvs].
  exists ((fun e => mkVolunteer e EmptyString)
            <$> elements (default ∅ (teamMembers s !! teamID))).
  split; [|split].
  - rewrite run_ListTeamMembers, Ht, Hvs.
    by rewrite (mapM_well_keyed s _ vs Hk Hvs).
  - apply NoDup_fmap_2; [|apply NoDup_elements].
    by intros e1 e2 [= ->].
  - intros v. rewrite list_elem_of_fmap. split.
    + intros (e & -> & He). by apply elem_of_elements in He.
    + intros [Hp He]. exists (Email v). split.
      * destruct v as [e p]. cbn in *. by subst p.
      * by apply elem_of_elements.
Qed.

Lemma ListTeamMembers_lists_each_member_once_witness :
  exists l,
    run (ListTeamMembers "gophers")
        (after_calls memorystore.New
           [CallAuthenticateOrCreateVolunteerAccount scenario.me;
            CallCreateTeam scenario.gophers;
            CallAddTeamMember "gophers" "me@example.com"])
      = (Return (Some l, None),
         after_calls memorystore.New
           [CallAuthenticateOrCreateVolunteerAccount scenario.me;
            CallCreateTeam scenario.gophers;
            CallAddTeamMember "gophers" "me@example.com"]) /\
    mkVolunteer "me@example.com" EmptyString ∈ l.
Proof.
  destruct (ListTeamMembers_lists_each_member_once
              [CallAuthenticateOrCreateVolunteerAccount scenario.me;
               CallCreateTeam scenario.gophers;
               CallAddTeamMember "gophers" "me@example.com"]
              "gophers" scenario.gophers)
    as (l & Hrun & _ & Hl); [vm_compute; reflexivity|].
  exists l. split; [exact Hrun|].
  apply Hl. split; [reflexivity|]. vm_compute. reflexivity.
Defined.

(** X6. A member who has just been added can be removed: the removal
    succeeds and leaves the team with an empty recorded set, so
    [ListTeamMembers] returns an empty slice that is not nil and a second
    removal fails with [ErrNotFound]; volunteers and teams are as before
    the two calls. *)
Theorem AddTeamMember_then_RemoveTeamMember s teamID email s1 :
  run (AddTeamMember teamID email) s = (Return None, s1) ->
  exists s2,
    run (RemoveTeamMember teamID email) s1 = (Return None, s2) /\
    teamMembers s2 !! teamID = Some ∅ /\
    volunteers s2 = volunteers s /\
    teams s2 = teams s /\
    run (ListTeamMembers teamID) s2 = (Return (Some [], None), s2) /\
    run (RemoveTeamMember teamID email) s2
      = (Return (Some ErrNotFound), s2).
Proof.
  intros Hadd.
  assert (is_Some (teams s !! teamID) /\
          s1 = mkStore (volunteers s) (teams s)
                       (<[teamID := {[email]}]> (teamMembers s)))
    as [[t Ht] ->].
  { rewrite run_AddTeamMember in Hadd.
    destruct (teams s !! teamID); [|done].
    destruct (volunteers s !! email); [|done]. split; [eauto|].
    destruct (teamMembers s !! teamID) as [ms|]; [|congruence].
    destruct (bool_decide (email ∈ ms)); congruence. }
  eexists. split.
  { rewrite run_RemoveTeamMember. cbn. rewrite Ht, lookup_insert_eq.
    rewrite bool_decide_eq_true_2 by set_solver. reflexivity. }
  cbn. rewrite insert_insert_eq, lookup_insert_eq.
  replace ({[email]} ∖ {[email]} : gset string) with (∅ : gset string)
    by set_solver.
  repeat split.
  - rewrite run_ListTeamMembers. cbn. rewrite Ht, lookup_insert_eq. cbn.
    by rewrite elements_empty.
  - rewrite run_RemoveTeamMember. cbn. rewrite Ht, lookup_insert_eq.
    by rewrite bool_decide_eq_false_2 by set_solver.
Qed.

Lemma AddTeamMember_then_RemoveTeamMember_witness :
  exists s1 s2,
    run (AddTeamMember "gophers" "me@example.com") scenario.signed_up
      = (Return None, s1) /\
    run (RemoveTeamMember "gophers" "me@example.com") s1
      = (Return None, s2) /\
    run (ListTeamMembers "gophers") s2 = (Return (Some [], None), s2).
Proof.
  assert (H1 : run (AddTeamMember "gophers" "me@example.com")
                   scenario.signed_up
               = (Return None,
                  after_call scenario.signed_up
                    (CallAddTeamMember "gophers" "me@example.com")))
    by (vm_compute; reflexivity).
  destruct (AddTeamMember_then_RemoveTeamMember _ _ _ _ H1)
    as (s2 & Hrm & _ & _ & _ & Hlist & _).
  eexists _, s2. split; [exact H1|]. split; [exact Hrm|exact Hlist].
Defined.

(** X7. Adding a member a second time fails with [ErrAlreadyExists] and
    changes nothing. *)
Theorem AddTeamMember_again_AlreadyExists s teamID email s1 :
  run (AddTeamMember teamID email) s = (Return None, s1) ->
  run (AddTeamMember teamID email) s1 = (Return (Some ErrAlreadyExists), s1).
Proof.
  intros Hadd. rewrite run_AddTeamMember in Hadd.
  destruct (teams s !! teamID) as [t|] eqn:Ht; [|done].
  destruct (volunteers s !! email) as [v|] eqn:Hv; [|done].
  assert (s1 = mkStore (volunteers s) (teams s)
                       (<[teamID := {[email]}]> (teamMembers s))) as ->.
  { destruct (teamMembers s !! teamID) as [ms|]; [|congruence].
    destruct (bool_decide (email ∈ ms)); congruence. }
  rewrite run_AddTeamMember. cbn. rewrite Ht, Hv, lookup_insert_eq.
  by rewrite bool_decide_eq_true_2 by set_solver.
Qed.

Lemma AddTeamMember_again_AlreadyExists_witness :
  run (AddTeamMember "gophers" "me@example.com")
      (after_call scenario.signed_up
         (CallAddTeamMember "gophers" "me@example.com"))
    = (Return (Some ErrAlreadyExists),
       after_call scenario.signed_up
         (CallAddTeamMember "gophers" "me@example.com")).
Proof.
  apply (AddTeamMember_again_AlreadyExists scenario.signed_up).
  vm_compute; reflexivity.
Defined.

(** X8. [AddTeamMember] and [RemoveTeamMember] touch the member set of
    their own team only: whatever they return, the volunteers, the teams
    and the member sets of every other team are as before. *)
Theorem membership_changes_are_local s teamID email :
  (volunteers (snd (run (AddTeamMember teamID email) s)) = volunteers s /\
   teams (snd (run (AddTeamMember teamID email) s)) = teams s /\
   forall other, other <> teamID ->
     teamMembers (snd (run (AddTeamMember teamID email) s)) !! other
       = teamMembers s !! other) /\
  (volunteers (snd (run (RemoveTeamMember teamID email) s)) = volunteers s /\
   teams (snd (run (RemoveTeamMember teamID email) s)) = teams s /\
   forall other, other <> teamID ->
     teamMembers (snd (run (RemoveTeamMember teamID email) s)) !! other
       = teamMembers s !! other).
Proof.
  rewrite run_AddTeamMember, run_RemoveTeamMember.
  split.
  - destruct (teams s !! teamID); [|done].
    destruct (volunteers s !! email); [|done].
    destruct (teamMembers s !! teamID) as [ms|];
      [destruct (bool_decide (email ∈ ms)); [done|]|];
      cbn; repeat split; intros; by rewrite lookup_insert_ne.
  - destruct (teams s !! teamID); [|done].
    destruct (teamMembers s !! teamID) as [ms|]; [|done].
    destruct (bool_decide (email ∈ ms)); [|done].
    cbn; repeat split; intros; by rewrite lookup_insert_ne.
Qed.

(** X9. [RemoveTeamMember] succeeds exactly when the team is stored and
    the email is in its recorded member set; then it removes that email
    and nothing else from the set. In every other case it returns
    [ErrNotFound]. *)
Theorem RemoveTeamMember_succeeds_iff_member s teamID email :
  (fst (run (RemoveTeamMember teamID email) s) = Return None <->
   is_Some (teams s !! teamID) /\
   email ∈ default ∅ (teamMembers s !! teamID)) /\
  (fst (run (RemoveTeamMember teamID email) s) = Return None \/
   run (RemoveTeamMember teamID email) s = (Return (Some ErrNotFound), s)) /\
  (fst (run (RemoveTeamMember teamID email) s) = Return None ->
   teamMembers (snd (run (RemoveTeamMember teamID email) s)) !! teamID
     = Some (default ∅ (teamMembers s !! teamID) ∖ {[email]})).
Proof.
  rewrite run_RemoveTeamMember.
  destruct (teams s !! teamID) as [t|]; cbn.
  2: { split; [split; [done|by intros [[? [=]] _]]|]. split; [by right|done]. }
  destruct (teamMembers s !! teamID) as [ms|]; cbn.
  2: { split; [split; [done|intros [_ H]; by apply elem_of_empty in H]|].
       split; [by right|done]. }
  destruct (bool_decide (email ∈ ms)) eqn:He; cbn.
  - apply bool_decide_eq_true in He.
    split; [split; [eauto|done]|]. split; [by left|].
    intros _. by rewrite lookup_insert_eq.
  - apply bool_decide_eq_false in He.
    split; [split; [done|by intros [_ ?]]|]. split; [by right|done].
Qed.

(** X10. [AddTeamMember] succeeds exactly when the team and the
    volunteer are stored and the email is not in the recorded member set
    of the team; it fails with [ErrAlreadyExists] exactly when both are
    stored and the email is in the set, and with [ErrNotFound] exactly
    when the team or the volunteer is missing. *)
Theorem AddTeamMember_outcome_by_state s teamID email :
  (fst (run (AddTeamMember teamID email) s) = Return None <->
   is_Some (teams s !! teamID) /\ is_Some (volunteers s !! email) /\
   email ∉ default ∅ (teamMembers s !! teamID)) /\
  (fst (run (AddTeamMember teamID email) s) = Return (Some ErrAlreadyExists)
   <->
   is_Some (teams s !! teamID) /\ is_Some (volunteers s !! email) /\
   email ∈ default ∅ (teamMembers s !! teamID)) /\
  (fst (run (AddTeamMember teamID email) s) = Return (Some ErrNotFound) <->
   teams s !! teamID = None \/ volunteers s !! email = None).
Proof.
  rewrite run_AddTeamMember.
  destruct (teams s !! teamID) as [t|]; cbn.
  2: { repeat split; try done; try (by intros [[? [=]] _]); by left. }
  destruct (volunteers s !! email) as [v|]; cbn.
  2: { repeat split; try done; try (by intros (_ & [? [=]] & _)); by right. }
  destruct (teamMembers s !! teamID) as [ms|]; cbn.
  - destruct (bool_decide (email ∈ ms)) eqn:He; cbn.
    + apply bool_decide_eq_true in He.
      repeat split; eauto; try done; try (by intros (_ & _ & ?));
        by intros [[=]|[=]].
    + apply bool_decide_eq_false in He.
      repeat split; eauto; try done; try (by intros (_ & _ & ?));
        by intros [[=]|[=]].
  - repeat split; eauto; try done; try set_solver; by intros [[=]|[=]].
Qed.

End memorystore_joining_and_leaving.

(** ** More on the lock of the in-memory store *)

Section memorystore_lock_release.

Implicit Types (s : Store) (teamID : string).

(** X11. Every method of the in-memory store other than
    [CountTeamMembers] keeps the lock discipline: it reads the maps under
    the shared or the exclusive lock, writes them under the exclusive lock
    only, and has released the lock when it returns. *)
Theorem methods_other_than_count_keep_the_discipline s c :
  c <> CallCountTeamMembers ->
  disciplined (call_events s c) = true.
Proof. apply other_methods_are_disciplined. Qed.

Lemma methods_other_than_count_keep_the_discipline_witness :
  disciplined
    (call_events scenario.signed_up
       (CallAddTeamMember "gophers" "me@example.com")) = true /\
  call_events scenario.signed_up
    (CallAddTeamMember "gophers" "me@example.com")
    = [EvLock; EvMap Mteams Rd; EvMap Mvolunteers Rd; EvMap MteamMembers Rd;
       EvMap MteamMembers Wr; EvUnlock].
Proof.
  split; [|vm_compute; reflexivity].
  apply (methods_other_than_count_keep_the_discipline scenario.signed_up).
  discriminate.
Defined.

End memorystore_lock_release.

(** ** The handlers of api.go *)

Section handlers_of_the_api.

Implicit Types (s : Store) (c : Context).

Lemma run_inv {A} (m : M World A) s (o : Outcome A) s' :
  run m s = (o, s') -> exists tr, m (mkWorld s []) = (o, mkWorld s' tr).
Proof.
  unfold run. destruct (m (mkWorld s [])) as [o' [s'' tr]]. cbn.
  intros [= -> ->]. by exists tr.
Qed.

(** X13. The email [GenerateJWTToken] puts into a token is the email
    [GetEmailFromJWTToken] reads from a request that carries this token;
    the token expires [tokenExpiration] after it was made. *)
Theorem GenerateJWTToken_email_is_read_back {St} (api : API St)
    (unix_after : Z -> Z) (volunteer : Volunteer)
    (params : gmap string string) :
  exists claims,
    handlers.GenerateJWTToken_token api unix_after volunteer
      = Return (mkToken (MapClaims claims)) /\
    claims !! "email" = Some (ClaimString (Email volunteer)) /\
    claims !! "exp" = Some (ClaimNumber (unix_after (tokenExpiration api))) /\
    GetEmailFromJWTToken
      (mkContext {[ "user" := ValToken (mkToken (MapClaims claims)) ]} params)
      = (Email volunteer, true).
Proof.
  eexists. split; [reflexivity|].
  assert (Hemail :
    (<["exp" := ClaimNumber (unix_after (tokenExpiration api))]>
       (<["email" := ClaimString (Email volunteer)]>
          (∅ : gmap string ClaimValue))) !! "email"
    = Some (ClaimString (Email volunteer))).
  { rewrite lookup_insert_ne by done. apply lookup_insert_eq. }
  split; [exact Hemail|]. split; [apply lookup_insert_eq|].
  unfold GetEmailFromJWTToken, Get. cbn [values].
  rewrite lookup_singleton_eq. cbn [token_Claims]. by rewrite Hemail.
Qed.

(** X14. [New] applies its options in order: the store and the secret are
    the ones given, and the token lifetime is the one of the last
    [SetTokenExpiration], 72 hours when there is none; without options it
    is the API the routes are built on. *)
Theorem New_applies_the_last_expiration {St} (store : api.Store St)
    (secret : string) (expirations : list Z) :
  api.store
    (handlers.New store secret (handlers.SetTokenExpiration <$> expirations))
    = store /\
  tokenSecret
    (handlers.New store secret (handlers.SetTokenExpiration <$> expirations))
    = secret /\
  tokenExpiration
    (handlers.New store secret (handlers.SetTokenExpiration <$> expirations))
    = default (72 * 3600 * 1000000000)%Z (last expirations) /\
  handlers.New store secret [] = api.New store secret.
Proof.
  split; [|split; [|split; [|done]]]; unfold handlers.New;
    induction expirations as [|d ds IH] using rev_ind; try done;
    rewrite fmap_app, foldl_app, ?last_snoc; cbn; try done.
Qed.

Lemma world_run {A} (m : M World A) s :
  exists tr,
    m (mkWorld s []) = (fst (run m s), mkWorld (snd (run m s)) tr).
Proof.
  unfold run. destruct (m (mkWorld s [])) as [o [s' tr]]. by exists tr.
Qed.

(** X15. [PostLogin] answers a body that could not be bound with the
    error of [c.Bind], and a body with an empty email or an empty password
    with 400 Bad Request; in both cases no method of the store is called,
    so no account is created. *)
Theorem PostLogin_rejects_bad_bodies_before_the_store {St} (api : API St)
    (sign : Token -> string -> string * option Error) (unix_after : Z -> Z)
    (bound : Error + Volunteer) c (w : St) :
  match bound with
  | inl _ => True
  | inr volunteer =>
      Email volunteer = EmptyString \/ Password volunteer = EmptyString
  end ->
  handlers.PostLogin api sign unix_after bound c w
    = (Return (None,
               Some match bound with
                    | inl err => err
                    | inr _ => HTTPError 400
                    end), w).
Proof.
  destruct bound as [err|[email password]]; [done|]. cbn.
  unfold handlers.PostLogin. cbn.
  intros [->| ->]; [done|].
  by destruct (String.eqb email EmptyString).
Qed.

Lemma PostLogin_rejects_bad_bodies_before_the_store_witness :
  handlers.PostLogin scenario.in_memory_api requests.sign_plainly
      requests.at_noon (inr (mkVolunteer "new@example.com" EmptyString))
      requests.anonymous (mkWorld scenario.signed_up [])
    = (Return (None, Some (HTTPError 400)), mkWorld scenario.signed_up []).
Proof.
  apply (PostLogin_rejects_bad_bodies_before_the_store
           scenario.in_memory_api requests.sign_plainly requests.at_noon
           (inr (mkVolunteer "new@example.com" EmptyString))).
  right. reflexivity.
Defined.

(** X16. On the in-memory store [PostLogin] with a non-empty email and
    password signs the volunteer up when the email is new, logs the
    volunteer in without touching the store when the password is the
    stored one, and answers 401 Unauthorized, without a token and without
    touching the store, when it is not. The reply on success is
    200 OK with the signed token, or the error of the signing. *)
Theorem PostLogin_signs_up_or_logs_in
    (sign : Token -> string -> string * option Error) (unix_after : Z -> Z)
    (secret : string) c s (email password : string) :
  email <> EmptyString ->
  password <> EmptyString ->
  exists token,
    handlers.GenerateJWTToken_token (api.New memorystore.as_Store secret)
      unix_after (mkVolunteer email password) = Return token /\
    run (handlers.PostLogin (api.New memorystore.as_Store secret) sign
           unix_after (inr (mkVolunteer email password)) c) s
      = match volunteers s !! email with
        | None =>
            (Return match sign token secret with
                    | (signed, None) =>
                        (Some (handlers.mkReply 200
                                 (handlers.TokenPayload signed)), None)
                    | (_, Some err) => (None, Some err)
                    end,
             mkStore (<[email := mkVolunteer email password]> (volunteers s))
                     (teams s) (teamMembers s))
        | Some v =>
            if decide (Password v = password)
            then (Return match sign token secret with
                         | (signed, None) =>
                             (Some (handlers.mkReply 200
                                      (handlers.TokenPayload signed)), None)
                         | (_, Some err) => (None, Some err)
                         end, s)
            else (Return (None, Some echo_ErrUnauthorized), s)
        end.
Proof.
  intros Hemail Hpassword. eexists. split; [reflexivity|].
  unfold run at 1, handlers.PostLogin, bind, api.New.
  cbn [Email Password api.store api.AuthenticateOrCreateVolunteerAccount
       memorystore.as_Store].
  rewrite (proj2 (String.eqb_neq _ _) Hemail),
    (proj2 (String.eqb_neq _ _) Hpassword).
  destruct (world_run
              (memorystore.AuthenticateOrCreateVolunteerAccount
                 (mkVolunteer email password)) s) as [tr ->].
  rewrite run_AuthenticateOrCreateVolunteerAccount. cbn.
  destruct (volunteers s !! email) as [v|]; cbn.
  - destruct (decide (Password v <> password)) as [Hne|Heq]; cbn.
    + by rewrite decide_False.
    + rewrite decide_True by (by destruct (decide (Password v = password))).
      unfold handlers.GenerateJWTToken. cbn.
      by destruct (sign _ secret) as [signed [err|]].
  - unfold handlers.GenerateJWTToken. cbn.
    by destruct (sign _ secret) as [signed [err|]].
Qed.

Lemma PostLogin_signs_up_or_logs_in_witness :
  run (handlers.PostLogin scenario.in_memory_api requests.sign_plainly
         requests.at_noon (inr scenario.me) requests.anonymous)
      memorystore.New
    = (Return (Some (handlers.mkReply 200
                       (handlers.TokenPayload "me@example.com.top-secret")),
               None),
       after_call memorystore.New
         (CallAuthenticateOrCreateVolunteerAccount scenario.me)) /\
  run (handlers.PostLogin scenario.in_memory_api requests.sign_plainly
         requests.at_noon (inr (mkVolunteer "me@example.com" "guess"))
         requests.anonymous)
      scenario.signed_up
    = (Return (None, Some echo_ErrUnauthorized), scenario.signed_up).
Proof.
  split.
  - destruct (PostLogin_signs_up_or_logs_in requests.sign_plainly
                requests.at_noon "top-secret" requests.anonymous
                memorystore.New "me@example.com" "secret"
                ltac:(discriminate) ltac:(discriminate))
      as (token & Htoken & Hrun).
    injection Htoken as <-. exact Hrun.
  - destruct (PostLogin_signs_up_or_logs_in requests.sign_plainly
                requests.at_noon "top-secret" requests.anonymous
                scenario.signed_up "me@example.com" "guess"
                ltac:(discriminate) ltac:(discriminate))
      as (token & _ & Hrun).
    exact Hrun.
Defined.

(** X17. [GetMe] answers 401 Unauthorized without calling the store
    when the request carries no usable token. On the in-memory store, with
    a token for a stored email it answers 200 OK with the volunteer and an
    empty password; with a token for an email that is not stored it
    returns the store's [ErrNotFound] as it is, not echo's 404. *)
Theorem GetMe_answers_for_the_token_holder c :
  (forall St (api : API St) (w : St),
     snd (GetEmailFromJWTToken c) = false ->
     handlers.GetMe api c w = (Return (None, Some echo_ErrUnauthorized), w)) /\
  (forall secret s email,
     GetEmailFromJWTToken c = (email, true) ->
     run (handlers.GetMe (api.New memorystore.as_Store secret) c) s
       = match volunteers s !! email with
         | Some v =>
             (Return (Some (handlers.mkReply 200
                              (handlers.VolunteerPayload
                                 (Some (mkVolunteer (Email v) EmptyString)))),
                      None), s)
         | None => (Return (None, Some ErrNotFound), s)
         end).
Proof.
  split.
  - intros St api w Hno. unfold handlers.GetMe.
    destruct (GetEmailFromJWTToken c) as [email ok]. cbn in Hno.
    by subst ok.
  - intros secret s email Hok.
    unfold run at 1, handlers.GetMe, bind, api.New. rewrite Hok.
    cbn [negb api.store api.GetVolunteerByEmail memorystore.as_Store].
    destruct (world_run (memorystore.GetVolunteerByEmail email) s)
      as [tr ->].
    rewrite run_GetVolunteerByEmail.
    by destruct (volunteers s !! email).
Qed.

Lemma GetMe_answers_for_the_token_holder_witness :
  handlers.GetMe scenario.in_memory_api requests.anonymous
      (mkWorld scenario.signed_up [])
    = (Return (None, Some echo_ErrUnauthorized),
       mkWorld scenario.signed_up []) /\
  run (handlers.GetMe scenario.in_memory_api requests.as_me)
      scenario.signed_up
    = (Return (Some (handlers.mkReply 200
                       (handlers.VolunteerPayload
                          (Some (mkVolunteer "me@example.com" EmptyString)))),
               None), scenario.signed_up) /\
  run (handlers.GetMe scenario.in_memory_api requests.as_me) memorystore.New
    = (Return (None, Some ErrNotFound), memorystore.New).
Proof.
  split; [|split].
  - apply (proj1 (GetMe_answers_for_the_token_holder requests.anonymous)).
    reflexivity.
  - apply (proj2 (GetMe_answers_for_the_token_holder requests.as_me)
             "top-secret" scenario.signed_up "me@example.com").
    vm_compute; reflexivity.
  - apply (proj2 (GetMe_answers_for_the_token_holder requests.as_me)
             "top-secret" memorystore.New "me@example.com").
    vm_compute; reflexivity.
Defined.

(** X18. [PostTeam] answers a body that could not be bound with the error
    of [c.Bind] and a team with an empty id with 400 Bad Request, without
    calling the store. On the in-memory store a team with a new id is
    stored and echoed with 201 Created; an id that is taken gives
    409 Conflict and leaves the stored team as it is. *)
Theorem PostTeam_creates_or_conflicts c :
  (forall St (api : API St) (bound : Error + Team) (w : St),
     match bound with
     | inl _ => True
     | inr team => ID team = EmptyString
     end ->
     handlers.PostTeam api bound c w
       = (Return (None,
                  Some match bound with
                       | inl err => err
                       | inr _ => HTTPError 400
                       end), w)) /\
  (forall secret s team,
     ID team <> EmptyString ->
     run (handlers.PostTeam (api.New memorystore.as_Store secret)
            (inr team) c) s
       = match teams s !! ID team with
         | None =>
             (Return (Some (handlers.mkReply 201
                              (handlers.TeamPayload (Some team))), None),
              mkStore (volunteers s) (<[ID team := team]> (teams s))
                      (teamMembers s))
         | Some _ => (Return (None, Some (HTTPError 409)), s)
         end).
Proof.
  split.
  - intros St api [err|team] w; [done|]. cbn. intros Hid.
    unfold handlers.PostTeam. by rewrite Hid.
  - intros secret s team Hid.
    unfold run at 1, handlers.PostTeam, bind, api.New.
    rewrite (proj2 (String.eqb_neq _ _) Hid).
    cbn [api.store api.CreateTeam memorystore.as_Store].
    destruct (world_run (memorystore.CreateTeam team) s) as [tr ->].
    rewrite run_CreateTeam.
    by destruct (teams s !! ID team).
Qed.

Lemma PostTeam_creates_or_conflicts_witness :
  handlers.PostTeam scenario.in_memory_api
      (inr (mkTeam EmptyString "Nameless")) requests.as_me
      (mkWorld scenario.signed_up [])
    = (Return (None, Some (HTTPError 400)), mkWorld scenario.signed_up []) /\
  run (handlers.PostTeam scenario.in_memory_api
         (inr (mkTeam "gophers" "Impostors")) requests.as_me)
      scenario.signed_up
    = (Return (None, Some (HTTPError 409)), scenario.signed_up).
Proof.
  split.
  - apply (proj1 (PostTeam_creates_or_conflicts requests.as_me)
             World scenario.in_memory_api
             (inr (mkTeam EmptyString "Nameless"))).
    reflexivity.
  - apply (proj2 (PostTeam_creates_or_conflicts requests.as_me)
             "top-secret" scenario.signed_up (mkTeam "gophers" "Impostors")).
    discriminate.
Defined.

(** X19. A team created through [PostTeam] on the in-memory store is what
    the handler [GetTeamByID] answers for its id, with 200 OK, after any
    further calls on the store; for an id that is not stored the handler
    answers echo's 404 Not Found. *)
Theorem GetTeamByID_answers_what_PostTeam_stored secret c c' s team s1 cs :
  run (handlers.PostTeam (api.New memorystore.as_Store secret)
         (inr team) c) s
    = (Return (Some (handlers.mkReply 201 (handlers.TeamPayload (Some team))),
               None), s1) ->
  Param c' "id" = ID team ->
  run (handlers.GetTeamByID (api.New memorystore.as_Store secret) c')
      (after_calls s1 cs)
    = (Return (Some (handlers.mkReply 200 (handlers.TeamPayload (Some team))),
               None), after_calls s1 cs) /\
  forall c'',
    teams (after_calls s1 cs) !! Param c'' "id" = None ->
    run (handlers.GetTeamByID (api.New memorystore.as_Store secret) c'')
        (after_calls s1 cs)
      = (Return (None, Some echo_ErrNotFound), after_calls s1 cs).
Proof.
  intros Hpost Hid.
  assert (Hstored : teams (after_calls s1 cs) !! ID team = Some team).
  { apply after_calls_teams.
    unfold run at 1, handlers.PostTeam, bind, api.New in Hpost.
    destruct (String.eqb (ID team) EmptyString); [done|].
    cbn [api.store api.CreateTeam memorystore.as_Store] in Hpost.
    destruct (world_run (memorystore.CreateTeam team) s) as [tr Hw].
    rewrite Hw, run_CreateTeam in Hpost.
    destruct (teams s !! ID team); [done|].
    cbn in Hpost. injection Hpost as <-. cbn. apply lookup_insert_eq. }
  assert (Hget : forall c0,
            run (handlers.GetTeamByID (api.New memorystore.as_Store secret) c0)
                (after_calls s1 cs)
            = match teams (after_calls s1 cs) !! Param c0 "id" with
              | Some t =>
                  (Return (Some (handlers.mkReply 200
                                   (handlers.TeamPayload (Some t))), None),
                   after_calls s1 cs)
              | None =>
                  (Return (None, Some echo_ErrNotFound), after_calls s1 cs)
              end).
  { intros c0. unfold run at 1, handlers.GetTeamByID, bind, api.New.
    cbn [api.store api.GetTeamByID memorystore.as_Store].
    destruct (world_run (memorystore.GetTeamByID (Param c0 "id"))
                (after_calls s1 cs)) as [tr ->].
    rewrite run_GetTeamByID.
    by destruct (teams (after_calls s1 cs) !! Param c0 "id"). }
  split.
  - by rewrite Hget, Hid, Hstored.
  - intros c'' Hnone. by rewrite Hget, Hnone.
Qed.

Lemma GetTeamByID_answers_what_PostTeam_stored_witness :
  run (handlers.GetTeamByID scenario.in_memory_api requests.as_me)
      (after_calls
         (after_call memorystore.New (CallCreateTeam scenario.gophers))
         [CallCreateTeam (mkTeam "gophers" "Impostors")])
    = (Return (Some (handlers.mkReply 200
                       (handlers.TeamPayload (Some scenario.gophers))),
               None),
       after_calls
         (after_call memorystore.New (CallCreateTeam scenario.gophers))
         [CallCreateTeam (mkTeam "gophers" "Impostors")]).
Proof.
  apply (GetTeamByID_answers_what_PostTeam_stored
           "top-secret" requests.anonymous requests.as_me memorystore.New
           scenario.gophers
           (after_call memorystore.New (CallCreateTeam scenario.gophers))
           [CallCreateTeam (mkTeam "gophers" "Impostors")]);
    vm_compute; reflexivity.
Defined.

(** X20. Whatever the store, when [GetTeamMembers] answers it answers
    200 OK with a list: a nil slice from the store is replaced by an
    empty one, so the body is never null. An error of the store is
    returned as it is, with no response written. *)
Theorem GetTeamMembers_never_answers_null {St} (api : API St) c (w w' : St)
    (response : option Response) (err : option Error) :
  GetTeamMembers api c w = (Return (response, err), w') ->
  (exists members storeErr,
     api.ListTeamMembers (store api) (Param c "id") w
       = (Return (members, storeErr), w') /\
     err = storeErr /\
     response =
       match storeErr with
       | Some _ => None
       | None =>
           Some (mkResponse 200 (JSONVolunteers (Some (slice_elems members))))
       end).
Proof.
  unfold GetTeamMembers, bind.
  destruct (api.ListTeamMembers (store api) (Param c "id") w)
    as [[[members storeErr]|msg] w0]; [|done].
  destruct storeErr as [e|]; cbn.
  - intros [= <- <- <-]. by exists members, (Some e).
  - intros [= <- <- <-]. exists members, None.
    by destruct members.
Qed.

Lemma GetTeamMembers_never_answers_null_witness :
  exists members,
    postgrestore.ListTeamMembers "gophers" scenario.db_signed_up
      = (Return (members, None), scenario.db_signed_up) /\
    Some (mkResponse 200 (JSONVolunteers (Some [])))
      = Some (mkResponse 200 (JSONVolunteers (Some (slice_elems members)))).
Proof.
  destruct (GetTeamMembers_never_answers_null
              (api.New (postgrestore.as_Store requests.plain_crypt "salt")
                       "top-secret")
              requests.as_me scenario.db_signed_up scenario.db_signed_up
              (Some (mkResponse 200 (JSONVolunteers (Some [])))) None
              ltac:(vm_compute; reflexivity))
    as (members & storeErr & Hlist & <- & Hresp).
  exists members. split; [exact Hlist|exact Hresp].
Defined.

(** X21. On the in-memory store [PutTeamMemberByEmail] answers
    201 Created when it adds the member, answers nothing and returns no
    error when the volunteer is a member already, and answers echo's
    404 Not Found when the team or the volunteer is not stored; only in
    the first case does the store change. *)
Theorem PutTeamMemberByEmail_joins_once secret c s :
  run (PutTeamMemberByEmail (api.New memorystore.as_Store secret) c) s
    = match teams s !! Param c "id", volunteers s !! Param c "email" with
      | Some _, Some _ =>
          if bool_decide
               (Param c "email" ∈ default ∅ (teamMembers s !! Param c "id"))
          then (Return (None, None), s)
          else (Return (Some (mkResponse 201 NoBody), None),
                mkStore (volunteers s) (teams s)
                        (<[Param c "id" := {[Param c "email"]}]>
                           (teamMembers s)))
      | _, _ => (Return (None, Some echo_ErrNotFound), s)
      end.
Proof.
  unfold run at 1, PutTeamMemberByEmail, bind, api.New.
  cbn [api.store api.AddTeamMember memorystore.as_Store].
  destruct (world_run
              (memorystore.AddTeamMember (Param c "id") (Param c "email")) s)
    as [tr ->].
  rewrite run_AddTeamMember.
  destruct (teams s !! Param c "id"); [|done].
  destruct (volunteers s !! Param c "email"); [|done].
  destruct (teamMembers s !! Param c "id") as [ms|]; cbn.
  - by destruct (bool_decide (Param c "email" ∈ ms)).
  - by rewrite bool_decide_eq_false_2 by set_solver.
Qed.

(** X22. On the in-memory store [DeleteTeamMemberByEmail] returns no
    error and writes no response when it removes the member; when the
    team is not stored or the volunteer is no member it returns the
    store's [ErrNotFound] as it is, not echo's 404, and the store is
    unchanged. *)
Theorem DeleteTeamMemberByEmail_passes_the_store_error secret c s :
  run (DeleteTeamMemberByEmail (api.New memorystore.as_Store secret) c) s
    = match teams s !! Param c "id" with
      | Some _ =>
          if bool_decide
               (Param c "email" ∈ default ∅ (teamMembers s !! Param c "id"))
          then (Return (None, None),
                mkStore (volunteers s) (teams s)
                        (<[Param c "id" :=
                             default ∅ (teamMembers s !! Param c "id")
                               ∖ {[Param c "email"]}]> (teamMembers s)))
          else (Return (None, Some ErrNotFound), s)
      | None => (Return (None, Some ErrNotFound), s)
      end.
Proof.
  unfold run at 1, DeleteTeamMemberByEmail, bind, api.New.
  cbn [api.store api.RemoveTeamMember memorystore.as_Store].
  destruct (world_run
              (memorystore.RemoveTeamMember (Param c "id") (Param c "email"))
              s) as [tr ->].
  rewrite run_RemoveTeamMember.
  destruct (teams s !! Param c "id"); [|done].
  destruct (teamMembers s !! Param c "id") as [ms|]; cbn.
  - by destruct (bool_decide (Param c "email" ∈ ms)).
  - by rewrite bool_decide_eq_false_2 by set_solver.
Qed.

(** X23. A request that the JWT middleware of the group hands on, and
    whose token carries the email of the path, goes through
    [limitEmailToCurrentUser] unchanged: on both membership routes it is
    served by the handler itself, on the context the middleware handed
    on. *)
Theorem membership_routes_serve_the_token_holder {St}
    (jwtMiddleware : HandlerFunc St -> HandlerFunc St) (a : API St)
    arriving c (email : string) :
  (forall handler, jwtMiddleware handler arriving = handler c) ->
  GetEmailFromJWTToken c = (email, true) ->
  Param c "email" = email ->
  main.route_PutTeamMember jwtMiddleware a arriving
    = PutTeamMemberByEmail a c /\
  main.route_DeleteTeamMember jwtMiddleware a arriving
    = DeleteTeamMemberByEmail a c.
Proof.
  intros Hhands Hok Hparam. unfold main.route_PutTeamMember,
    main.route_DeleteTeamMember. rewrite !Hhands.
  split; by apply (limitEmailToCurrentUser_passes _ _ _ email).
Qed.

Lemma membership_routes_serve_the_token_holder_witness :
  run (main.route_PutTeamMember scenario.verified_as_me
         scenario.in_memory_api requests.arriving_for_me)
      scenario.signed_up
    = (Return (Some (mkResponse 201 NoBody), None),
       after_call scenario.signed_up
         (CallAddTeamMember "gophers" "me@example.com")).
Proof.
  rewrite (proj1 (membership_routes_serve_the_token_holder
                    scenario.verified_as_me scenario.in_memory_api
                    requests.arriving_for_me requests.me_for_me
                    "me@example.com" ltac:(intros handler; reflexivity)
                    ltac:(vm_compute; reflexivity)
                    ltac:(vm_compute; reflexivity))).
  vm_compute. reflexivity.
Defined.

End handlers_of_the_api.

(** ** More on the relational store *)

Section postgrestore_memberships.

Implicit Types (db : postgrestore.DB) (teamID email : string).

Lemma postgrestore_AddTeamMember_spec teamID email db :
  postgrestore.AddTeamMember teamID email db =
    if bool_decide ((teamID, email) ∈ postgrestore.team_members db)
    then (Return (Some ErrAlreadyExists), db)
    else
      match postgrestore.teams db !! teamID,
            postgrestore.volunteers db !! email with
      | Some _, Some _ =>
          (Return None,
           postgrestore.mkDB (postgrestore.volunteers db)
             (postgrestore.teams db)
             ({[(teamID, email)]} ∪ postgrestore.team_members db))
      | _, _ => (Return (Some ErrNotFound), db)
      end.
Proof.
  unfold postgrestore.AddTeamMember, postgrestore.sql_insert_team_member.
  destruct (bool_decide _); [done|].
  destruct (postgrestore.teams db !! teamID); [|done].
  by destruct (postgrestore.volunteers db !! email).
Qed.

Lemma postgrestore_RemoveTeamMember_spec teamID email db :
  postgrestore.RemoveTeamMember teamID email db =
    if bool_decide ((teamID, email) ∈ postgrestore.team_members db)
    then (Return None,
          postgrestore.mkDB (postgrestore.volunteers db)
            (postgrestore.teams db)
            (postgrestore.team_members db ∖ {[(teamID, email)]}))
    else (Return (Some ErrNotFound), db).
Proof.
  unfold postgrestore.RemoveTeamMember, postgrestore.sql_delete_team_member.
  by destruct (bool_decide _).
Qed.

Lemma postgrestore_consistent_after_call crypt db c :
  postgrestore_calls.consistent db ->
  postgrestore_calls.consistent (postgrestore_calls.after_call crypt db c).
Proof.
  intros Hdb. destruct c; cbn [postgrestore_calls.after_call].
  2: { unfold postgrestore.GetVolunteerByEmail.
       by destruct (postgrestore.sql_select_volunteer email db). }
  3: { unfold postgrestore.GetTeamByID.
       by destruct (postgrestore.sql_select_team teamID db). }
  4, 6, 7: done.
  - unfold postgrestore.AuthenticateOrCreateVolunteerAccount,
      postgrestore.sql_upsert_volunteer.
    destruct (negb _); cbn; intros t e Hrow;
      destruct (Hdb t e Hrow) as [Ht [h Hh]]; (split; [done|]);
      apply lookup_insert_is_Some;
      destruct (decide (Email volunteer = e)); eauto.
  - rewrite postgrestore_CreateTeam_spec.
    destruct (postgrestore.teams db !! ID team) eqn:Hid; [done|].
    intros t e Hrow. destruct (Hdb t e Hrow) as [[n Hn] He].
    cbn. split; [|done]. apply lookup_insert_is_Some.
    destruct (decide (ID team = t)); eauto.
  - rewrite postgrestore_AddTeamMember_spec.
    destruct (bool_decide _); [done|].
    destruct (postgrestore.teams db !! teamID) eqn:Ht; [|done].
    destruct (postgrestore.volunteers db !! email) eqn:He; [|done].
    intros t e. cbn. rewrite elem_of_union, elem_of_singleton.
    intros [[= -> ->]|Hrow]; [by rewrite Ht, He|by apply Hdb].
  - rewrite postgrestore_RemoveTeamMember_spec.
    destruct (bool_decide _); [|done].
    intros t e. cbn. rewrite elem_of_difference. intros [Hrow _].
    by apply Hdb.
Qed.

Lemma postgrestore_consistent_after_calls crypt cs db :
  postgrestore_calls.consistent db ->
  postgrestore_calls.consistent (postgrestore_calls.after_calls crypt db cs).
Proof.
  revert db. induction cs as [|c cs IH]; intros db Hdb; [done|].
  cbn. by apply IH, postgrestore_consistent_after_call.
Qed.

Lemma postgrestore_consistent_migrated :
  postgrestore_calls.consistent postgrestore_calls.migrated.
Proof. intros t e Hrow. cbn in Hrow. by apply elem_of_empty in Hrow. Qed.

(** X24. Every state of the tables that the methods of the relational
    store produce from the migrated, empty tables satisfies the two
    foreign keys of team_members: each membership row names a team of the
    teams table and a volunteer of the volunteers table. *)
Theorem postgrestore_histories_keep_the_foreign_keys
    (crypt : string -> string -> string)
    (cs : list postgrestore_calls.Call) :
  postgrestore_calls.consistent
    (postgrestore_calls.after_calls crypt postgrestore_calls.migrated cs).
Proof.
  apply postgrestore_consistent_after_calls,
    postgrestore_consistent_migrated.
Qed.

Lemma postgrestore_ListTeamMembers_members teamID db :
  exists vs,
    postgrestore.ListTeamMembers teamID db = (Return (vs, None), db) /\
    NoDup (slice_elems vs) /\
    forall v,
      v ∈ slice_elems vs <->
      Password v = EmptyString /\
      (teamID, Email v) ∈ postgrestore.team_members db /\
      is_Some (postgrestore.volunteers db !! Email v).
Proof.
  destruct (postgrestore_ListTeamMembers_rows teamID db)
    as (vs & Hrun & Helems & _).
  exists vs. split; [done|]. rewrite Helems.
  unfold postgrestore.sql_select_team_members. split.
  - apply NoDup_fmap_2; [by intros e1 e2 [= ->]|].
    apply NoDup_fmap_2_strong; [|apply NoDup_filter, NoDup_elements].
    intros [t1 e1] [t2 e2] [[H1 _] _]%list_elem_of_filter
      [[H2 _] _]%list_elem_of_filter Heq.
    cbn in *. congruence.
  - intros v. rewrite list_elem_of_fmap. split.
    + intros (e & -> & He). apply list_elem_of_fmap in He
        as ([t e'] & -> & Hrow).
      apply list_elem_of_filter in Hrow as [[Ht Hv] Hrow].
      apply elem_of_elements in Hrow. cbn in *. by subst t.
    + intros (Hp & Hrow & Hv). exists (Email v). split.
      * destruct v as [e p]. cbn in *. by subst p.
      * apply list_elem_of_fmap. exists (teamID, Email v). split; [done|].
        apply list_elem_of_filter. split; [done|].
        by apply elem_of_elements.
Qed.

(** X25. In the relational store every volunteer returned by
    [ListTeamMembers] is returned once, and the volunteers returned are
    those with a membership row for the team and a row of their own, each
    with an empty password. *)
Theorem postgrestore_ListTeamMembers_lists_each_member_once teamID db :
  exists vs,
    postgrestore.ListTeamMembers teamID db = (Return (vs, None), db) /\
    NoDup (slice_elems vs) /\
    forall v,
      v ∈ slice_elems vs <->
      Password v = EmptyString /\
      (teamID, Email v) ∈ postgrestore.team_members db /\
      is_Some (postgrestore.volunteers db !! Email v).
Proof. apply postgrestore_ListTeamMembers_members. Qed.

(** X26. In the relational store membership is a set that grows: after
    two successful [AddTeamMember] calls for the same team both
    volunteers have a membership row and [ListTeamMembers] returns both. *)
Theorem postgrestore_AddTeamMember_keeps_earlier_members
    db teamID v1 v2 db1 db2 :
  postgrestore.AddTeamMember teamID v1 db = (Return None, db1) ->
  postgrestore.AddTeamMember teamID v2 db1 = (Return None, db2) ->
  v1 <> v2 /\
  exists vs,
    postgrestore.ListTeamMembers teamID db2 = (Return (Some vs, None), db2) /\
    mkVolunteer v1 EmptyString ∈ vs /\
    mkVolunteer v2 EmptyString ∈ vs.
Proof.
  rewrite !postgrestore_AddTeamMember_spec.
  destruct (bool_decide ((teamID, v1) ∈ _)); [done|].
  destruct (postgrestore.teams db !! teamID) as [n|] eqn:Ht; [|done].
  destruct (postgrestore.volunteers db !! v1) as [h1|] eqn:Hv1; [|done].
  intros [= <-]. cbn.
  destruct (bool_decide ((teamID, v2) ∈ _)) eqn:Hin; [done|].
  apply bool_decide_eq_false in Hin.
  rewrite Ht.
  destruct (postgrestore.volunteers db !! v2) as [h2|] eqn:Hv2; [|done].
  intros [= <-].
  split; [set_solver|].
  destruct (postgrestore_ListTeamMembers_members teamID
              (postgrestore.mkDB (postgrestore.volunteers db)
                 (postgrestore.teams db)
                 ({[(teamID, v2)]} ∪
                  ({[(teamID, v1)]} ∪ postgrestore.team_members db))))
    as (vs & Hrun & _ & Hvs).
  assert (H1 : mkVolunteer v1 EmptyString ∈ slice_elems vs).
  { apply Hvs. cbn. rewrite Hv1. split; [done|]. split; [set_solver|eauto]. }
  assert (H2 : mkVolunteer v2 EmptyString ∈ slice_elems vs).
  { apply Hvs. cbn. rewrite Hv2. split; [done|]. split; [set_solver|eauto]. }
  destruct vs as [l|]; [|by apply elem_of_nil in H1].
  by exists l.
Qed.

Lemma postgrestore_AddTeamMember_keeps_earlier_members_witness :
  exists db1 db2 vs,
    postgrestore.AddTeamMember "gophers" "me@example.com"
      scenario.db_signed_up = (Return None, db1) /\
    postgrestore.AddTeamMember "gophers" "you@example.com" db1
      = (Return None, db2) /\
    postgrestore.ListTeamMembers "gophers" db2
      = (Return (Some vs, None), db2) /\
    mkVolunteer "me@example.com" EmptyString ∈ vs /\
    mkVolunteer "you@example.com" EmptyString ∈ vs.
Proof.
  assert (H1 : postgrestore.AddTeamMember "gophers" "me@example.com"
                 scenario.db_signed_up
               = (Return None,
                  postgrestore_calls.after_call requests.plain_crypt
                    scenario.db_signed_up
                    (postgrestore_calls.CallAddTeamMember
                       "gophers" "me@example.com")))
    by (vm_compute; reflexivity).
  assert (H2 : postgrestore.AddTeamMember "gophers" "you@example.com"
                 (postgrestore_calls.after_call requests.plain_crypt
                    scenario.db_signed_up
                    (postgrestore_calls.CallAddTeamMember
                       "gophers" "me@example.com"))
               = (Return None,
                  postgrestore_calls.after_calls requests.plain_crypt
                    scenario.db_signed_up
                    [postgrestore_calls.CallAddTeamMember
                       "gophers" "me@example.com";
                     postgrestore_calls.CallAddTeamMember
                       "gophers" "you@example.com"]))
    by (vm_compute; reflexivity).
  destruct (postgrestore_AddTeamMember_keeps_earlier_members _ _ _ _ _ _
              H1 H2) as (_ & vs & Hlist & Hme & Hyou).
  eexists _, _, vs. split; [exact H1|]. split; [exact H2|].
  split; [exact Hlist|]. split; [exact Hme|exact Hyou].
Defined.

(** X27. In the relational store a membership that was just added can
    be removed, and the removal leaves the tables exactly as they were
    before the two calls; removing it once more fails with
    [ErrNotFound]. *)
Theorem postgrestore_AddTeamMember_then_RemoveTeamMember
    db teamID email db1 :
  postgrestore.AddTeamMember teamID email db = (Return None, db1) ->
  postgrestore.RemoveTeamMember teamID email db1 = (Return None, db) /\
  postgrestore.RemoveTeamMember teamID email db
    = (Return (Some ErrNotFound), db).
Proof.
  rewrite postgrestore_AddTeamMember_spec.
  destruct (bool_decide ((teamID, email) ∈ _)) eqn:Hin; [done|].
  apply bool_decide_eq_false in Hin.
  destruct (postgrestore.teams db !! teamID); [|done].
  destruct (postgrestore.volunteers db !! email); [|done].
  intros [= <-]. rewrite !postgrestore_RemoveTeamMember_spec. cbn.
  rewrite bool_decide_eq_true_2 by set_solver.
  rewrite bool_decide_eq_false_2 by done.
  split; [|done]. destruct db as [vs ts tms]. cbn in *.
  do 2 f_equal. set_solver.
Qed.

Lemma postgrestore_AddTeamMember_then_RemoveTeamMember_witness :
  postgrestore.RemoveTeamMember "gophers" "me@example.com"
    (postgrestore_calls.after_call requests.plain_crypt scenario.db_signed_up
       (postgrestore_calls.CallAddTeamMember "gophers" "me@example.com"))
    = (Return None, scenario.db_signed_up).
Proof.
  apply (postgrestore_AddTeamMember_then_RemoveTeamMember
           scenario.db_signed_up "gophers" "me@example.com").
  vm_compute; reflexivity.
Defined.

Lemma size_filter_elements (P : string * string -> Prop)
    `{!forall row, Decision (P row)} (X : gset (string * string)) :
  size (filter P X) = length (filter P (elements X)).
Proof.
  unfold filter at 1, set_filter.
  apply size_list_to_set, NoDup_filter, NoDup_elements.
Qed.

Lemma filter_iff_on {A} (P1 P2 : A -> Prop)
    `{!forall x, Decision (P1 x), !forall x, Decision (P2 x)} (l : list A) :
  (forall x, x ∈ l -> P1 x <-> P2 x) ->
  filter P1 l = filter P2 l.
Proof.
  induction l as [|a l IH]; intros Hiff; [done|].
  assert (Hl : forall x, x ∈ l -> P1 x <-> P2 x)
    by (intros x Hx; apply Hiff; by right).
  assert (Ha : P1 a <-> P2 a) by (apply Hiff; by left).
  destruct (decide (P1 a)).
  - rewrite !filter_cons_True by tauto. by rewrite IH.
  - rewrite !filter_cons_False by tauto. by rewrite IH.
Qed.

(** X28. In the relational store, when the foreign keys hold, the count
    [CountTeamMembers] reports for a team is the number of volunteers
    [ListTeamMembers] returns for it; a team for which [ListTeamMembers]
    returns nobody has no entry, so no entry is 0. *)
Theorem postgrestore_counts_agree_with_lists db teamID :
  postgrestore_calls.consistent db ->
  exists counts vs,
    postgrestore.CountTeamMembers db = (Return (counts, None), db) /\
    postgrestore.ListTeamMembers teamID db = (Return (vs, None), db) /\
    counts !! teamID
      = match length (slice_elems vs) with
        | 0 => None
        | S n => Some (S n)
        end.
Proof.
  intros Hdb.
  destruct (postgrestore_ListTeamMembers_rows teamID db)
    as (vs & Hlist & Helems & _).
  eexists _, vs. split; [reflexivity|]. split; [exact Hlist|].
  rewrite Helems, length_fmap.
  unfold postgrestore.sql_count_team_members,
    postgrestore.sql_select_team_members.
  rewrite (postgrestore_count_lookup _
             (fun id => size (filter (fun row => fst row = id)
                                     (postgrestore.team_members db)))).
  rewrite length_fmap, size_filter_elements.
  rewrite (filter_iff_on
             (fun row : string * string =>
                row.1 = teamID /\
                is_Some (postgrestore.volunteers db !! row.2))
             (fun row => row.1 = teamID)).
  2: { intros [t e] Hrow%elem_of_elements. cbn.
       split; [by intros [? _]|]. intros ->.
       split; [done|]. by destruct (Hdb teamID e Hrow). }
  rewrite lookup_empty.
  destruct (decide (teamID ∈ elements _)) as [Hin|Hnin].
  - apply elem_of_elements, elem_of_map in Hin as ([t e] & Ht & Hrow).
    cbn in Ht. subst t.
    assert (Hmem : (teamID, e) ∈ filter (fun row : string * string =>
                                           row.1 = teamID)
                     (elements (postgrestore.team_members db))).
    { apply list_elem_of_filter. split; [done|]. by apply elem_of_elements. }
    destruct (filter _ _); [by apply elem_of_nil in Hmem|done].
  - destruct (filter _ _) as [|[t e] rest] eqn:Hf; [done|].
    exfalso. apply Hnin.
    assert (Hmem : (t, e) ∈ filter (fun row : string * string =>
                                      row.1 = teamID)
                     (elements (postgrestore.team_members db)))
      by (rewrite Hf; left).
    apply list_elem_of_filter in Hmem as [Ht Hrow]. cbn in Ht. subst t.
    apply elem_of_elements, elem_of_map. exists (teamID, e).
    split; [done|]. by apply elem_of_elements.
Qed.

Lemma postgrestore_counts_agree_with_lists_witness :
  exists counts,
    postgrestore.CountTeamMembers requests.db_two_members
      = (Return (counts, None), requests.db_two_members) /\
    counts !! "gophers" = Some 2.
Proof.
  destruct (postgrestore_counts_agree_with_lists
              requests.db_two_members "gophers")
    as (counts & vs & Hcount & Hlist & Hn).
  { apply postgrestore_consistent_after_calls,
      postgrestore_consistent_migrated. }
  exists counts. split; [exact Hcount|].
  rewrite Hn. vm_compute in Hlist. injection Hlist as <-. reflexivity.
Defined.

Lemma postgrestore_teams_after_call crypt db c teamID name :
  postgrestore.teams db !! teamID = Some name ->
  postgrestore.teams (postgrestore_calls.after_call crypt db c) !! teamID
    = Some name.
Proof.
  intros Ht. destruct c; cbn [postgrestore_calls.after_call].
  - unfold postgrestore.AuthenticateOrCreateVolunteerAccount,
      postgrestore.sql_upsert_volunteer. by destruct (negb _).
  - unfold postgrestore.GetVolunteerByEmail.
    by destruct (postgrestore.sql_select_volunteer email db).
  - rewrite postgrestore_CreateTeam_spec.
    destruct (postgrestore.teams db !! ID team) eqn:Hid; [done|].
    cbn. rewrite lookup_insert_ne; [done|congruence].
  - unfold postgrestore.GetTeamByID.
    by destruct (postgrestore.sql_select_team teamID0 db).
  - rewrite postgrestore_AddTeamMember_spec.
    destruct (bool_decide _); [done|].
    destruct (postgrestore.teams db !! teamID0); [|done].
    by destruct (postgrestore.volunteers db !! email).
  - done.
  - rewrite postgrestore_RemoveTeamMember_spec.
    by destruct (bool_decide _).
  - done.
  - done.
Qed.

(** X29. In the relational store a team that [CreateTeam] has stored is
    what [GetTeamByID] returns for its id, id and name as given, after any
    further calls; [CreateTeam] with that id then fails with
    [ErrAlreadyExists] and leaves the tables as they are. *)
Theorem postgrestore_created_team_is_read_back
    (crypt : string -> string -> string) db team db1
    (cs : list postgrestore_calls.Call) :
  postgrestore.CreateTeam team db = (Return None, db1) ->
  postgrestore.GetTeamByID (ID team)
      (postgrestore_calls.after_calls crypt db1 cs)
    = (Return (Some team, None),
       postgrestore_calls.after_calls crypt db1 cs) /\
  forall team', ID team' = ID team ->
    postgrestore.CreateTeam team'
        (postgrestore_calls.after_calls crypt db1 cs)
      = (Return (Some ErrAlreadyExists),
         postgrestore_calls.after_calls crypt db1 cs).
Proof.
  intros Hcreate.
  assert (Hstored :
            postgrestore.teams (postgrestore_calls.after_calls crypt db1 cs)
              !! ID team = Some (Name team)).
  { assert (H1 : postgrestore.teams db1 !! ID team = Some (Name team)).
    { rewrite postgrestore_CreateTeam_spec in Hcreate.
      destruct (postgrestore.teams db !! ID team); [done|].
      injection Hcreate as <-. cbn. apply lookup_insert_eq. }
    clear Hcreate. revert db1 H1.
    induction cs as [|c cs IH]; intros db1 H1; [done|].
    cbn. by apply IH, postgrestore_teams_after_call. }
  split.
  - unfold postgrestore.GetTeamByID, postgrestore.sql_select_team.
    rewrite Hstored. by destruct team.
  - intros team' Hid. by rewrite postgrestore_CreateTeam_spec, Hid, Hstored.
Qed.

Lemma postgrestore_created_team_is_read_back_witness :
  postgrestore.GetTeamByID "gophers" requests.db_two_members
    = (Return (Some (mkTeam "gophers" "The Gophers"), None),
       requests.db_two_members).
Proof.
  apply (postgrestore_created_team_is_read_back requests.plain_crypt
           (postgrestore_calls.after_calls requests.plain_crypt
              postgrestore_calls.migrated
              [postgrestore_calls.CallAuthenticateOrCreateVolunteerAccount
                 "salt" scenario.me;
               postgrestore_calls.CallAuthenticateOrCreateVolunteerAccount
                 "salt" scenario.you])
           scenario.gophers _
           [postgrestore_calls.CallAddTeamMember "gophers" "me@example.com";
            postgrestore_calls.CallAddTeamMember
              "gophers" "you@example.com"]).
  vm_compute; reflexivity.
Defined.

End postgrestore_memberships.

(** ** The stats client *)

Import Stdlib.Strings.Ascii.

Section stats_endpoint.

Implicit Types (s arg : string).

Lemma append_nil s : EmptyString +:+ s = s.
Proof. reflexivity. Qed.

Lemma append_cons (a : ascii) s s' : String a s +:+ s' = String a (s +:+ s').
Proof. reflexivity. Qed.

Lemma in_cutset_slash (a : ascii) :
  stats.in_cutset "/" a = Ascii.eqb a "/"%char.
Proof. unfold stats.in_cutset. cbn. apply orb_false_r. Qed.

Lemma TrimRight_slash_nil s :
  stats.TrimRight s "/" = EmptyString -> exists n, s = stats.slashes n.
Proof.
  induction s as [|a rest IH]; [by exists 0|]. cbn [stats.TrimRight].
  destruct (stats.TrimRight rest "/") as [|b t]; [|done].
  destruct (IH eq_refl) as [n ->]. rewrite in_cutset_slash.
  destruct (Ascii.eqb_spec a "/"%char) as [->|]; [|done].
  intros _. by exists (S n).
Qed.

Lemma TrimRight_slash_decompose s :
  exists n, s = stats.TrimRight s "/" +:+ stats.slashes n.
Proof.
  induction s as [|a rest IH]; [by exists 0|]. cbn [stats.TrimRight].
  destruct (stats.TrimRight rest "/") as [|b t] eqn:Hrest.
  - destruct (TrimRight_slash_nil rest Hrest) as [n ->].
    rewrite in_cutset_slash.
    destruct (Ascii.eqb_spec a "/"%char) as [->|].
    + by exists (S n).
    + by exists n.
  - destruct IH as [n IH]. exists n. by rewrite IH at 1.
Qed.

Lemma TrimRight_slash_no_trailing s base :
  stats.TrimRight s "/" <> base +:+ "/".
Proof.
  revert base. induction s as [|a rest IH]; intros base;
    cbn [stats.TrimRight].
  - by destruct base.
  - destruct (stats.TrimRight rest "/") as [|b t] eqn:Hrest.
    + rewrite in_cutset_slash.
      destruct (Ascii.eqb_spec a "/"%char) as [->|Hne].
      * by destruct base.
      * destruct base as [|c [|d base]];
          rewrite ?append_cons, ?append_nil; congruence.
    + destruct base as [|c base]; rewrite ?append_cons, ?append_nil;
        [done|].
      intros [= -> Heq]. by apply (IH base).
Qed.

Lemma TrimRight_slash_snoc s :
  stats.TrimRight (s +:+ "/") "/" = stats.TrimRight s "/".
Proof.
  induction s as [|a rest IH]; [done|].
  rewrite append_cons. cbn [stats.TrimRight]. by rewrite IH.
Qed.

(** X30. The stats client builds the address of the endpoint from a base
    address given with or without trailing slashes: the slashes at the end
    of the argument are dropped, all of them and nothing else, before the
    path is appended, so one more slash at the end gives the same
    address. *)
Theorem endpoint_ignores_trailing_slashes arg :
  stats.endpoint (arg +:+ "/") = stats.endpoint arg /\
  exists base n,
    arg = base +:+ stats.slashes n /\
    stats.endpoint arg = base +:+ "/v1/stats/teams/member-count" /\
    forall shorter, base <> shorter +:+ "/".
Proof.
  split.
  - unfold stats.endpoint. by rewrite TrimRight_slash_snoc.
  - destruct (TrimRight_slash_decompose arg) as [n Hn].
    exists (stats.TrimRight arg "/"), n. split; [done|]. split; [done|].
    intros shorter. apply TrimRight_slash_no_trailing.
Qed.

End stats_endpoint.
